(** * Jellyfish ingestion job: a shallow embedding and its properties

    The development follows the sources:
    - [client/services/synctask.js]   -> Module [SyncTask]
    - the carelink fetcher            -> Module [Carelink]
    - [lib/children/fetch.js]         -> Module [Job]
      (stdin handler, [go], [fail], [fetch], [download], [removeData]).

    JavaScript values are modelled by the inductive [value]; asynchronous
    callbacks are modelled by explicit completion orders. *)

From Stdlib Require Import List String Ascii ZArith Bool Lia Permutation.
From Stdlib Require Import DecimalString.
Import ListNotations.
Set Warnings "-register-all".
Open Scope string_scope.
Open Scope Z_scope.
Open Scope list_scope.

(** ** JavaScript values *)

(** The JSON-shaped fragment of JavaScript values the program touches.
    Numbers are integers and arrays are left out: no field the program reads
    is an array.  An object is the list of its own properties. *)
Inductive value : Type :=
| VUndefined
| VNull
| VBool (b : bool)
| VNum (n : Z)
| VStr (s : string)
| VObj (fields : list (string * value)).

Fixpoint lookup_field (k : string) (fields : list (string * value)) : option value :=
  match fields with
  | [] => None
  | (k', v) :: rest => if String.eqb k k' then Some v else lookup_field k rest
  end.

(** [o[k]] / [o.k] for a non-nullish [o]: a missing property, or any
    property of a primitive, reads as [undefined]. *)
Definition get_prop (o : value) (k : string) : value :=
  match o with
  | VObj fields =>
      match lookup_field k fields with
      | Some v => v
      | None => VUndefined
      end
  | _ => VUndefined
  end.

Fixpoint assign_field (k : string) (v : value) (fields : list (string * value))
  : list (string * value) :=
  match fields with
  | [] => [(k, v)]
  | (k', v') :: rest =>
      if String.eqb k k' then (k, v) :: rest else (k', v') :: assign_field k v rest
  end.

(** [x == null] *)
Definition is_nullish (v : value) : bool :=
  match v with
  | VUndefined | VNull => true
  | _ => false
  end.

(** ToBoolean *)
Definition truthy (v : value) : bool :=
  match v with
  | VUndefined | VNull => false
  | VBool b => b
  | VNum n => negb (n =? 0)
  | VStr s => negb (String.eqb s "")
  | VObj _ => true
  end.

(** [a || b] *)
Definition js_or (a b : value) : value := if truthy a then a else b.

(** [String(v)], which is also how a value is turned into a property key. *)
Definition js_string (v : value) : string :=
  match v with
  | VUndefined => "undefined"
  | VNull => "null"
  | VBool true => "true"
  | VBool false => "false"
  | VNum n => NilZero.string_of_int (Z.to_int n)
  | VStr s => s
  | VObj _ => "[object Object]"
  end.

(** [a === 'literal'] *)
Definition strict_eq_str (a : value) (lit : string) : bool :=
  match a with
  | VStr s => String.eqb s lit
  | _ => false
  end.

(** Structural equality of values (the order of an object's fields counts). *)
Fixpoint value_eqb (a b : value) {struct a} : bool :=
  match a, b with
  | VUndefined, VUndefined => true
  | VNull, VNull => true
  | VBool x, VBool y => Bool.eqb x y
  | VNum x, VNum y => x =? y
  | VStr x, VStr y => String.eqb x y
  | VObj xs, VObj ys =>
      (fix fields_eqb (xs ys : list (string * value)) {struct xs} : bool :=
         match xs, ys with
         | [], [] => true
         | (k, v) :: xs', (k', v') :: ys' =>
             String.eqb k k' && value_eqb v v' && fields_eqb xs' ys'
         | _, _ => false
         end) xs ys
  | _, _ => false
  end.

(** An [Error] object: its [name] and its [message]. *)
Record error : Type := mkError { err_name : string; message : string }.

(** [except.IAE(msg)] and [except.ISE(msg)] of amoeba. *)
Definition IAE (msg : string) : error := mkError "IllegalArgumentException" msg.
Definition ISE (msg : string) : error := mkError "IllegalStateException" msg.
Definition TypeError (msg : string) : error := mkError "TypeError" msg.

(** Modelled from the spec: amoeba's [pre.hasProperty] is not among the
    sources.  A required property is one that is present, that is neither
    [undefined] nor [null]; a falsy but present value such as [0] passes.
    On success the property's value is returned, otherwise an
    IllegalArgumentException carrying [msg] is thrown. *)
Definition pre_hasProperty (obj : value) (prop : string) (msg : string)
  : error + value :=
  if is_nullish obj then inl (IAE msg)
  else if is_nullish (get_prop obj prop) then inl (IAE msg)
  else inr (get_prop obj prop).

(** ** client/services/synctask.js *)
Module SyncTask.

Definition isSuccessful (task : value) : bool :=
  if negb (truthy task) then false
  else strict_eq_str (get_prop task "status") "success".

Definition isFailed (task : value) : bool :=
  if negb (truthy task) then false
  else strict_eq_str (get_prop task "status") "error".

Definition getTaskId (task : value) : value :=
  if negb (truthy task) then VNull
  else get_prop task "_id".

End SyncTask.


(** ** The carelink fetcher *)
Module Carelink.

Definition CARELINK_security : string :=
  "https://carelink.minimed.com/patient/j_security_check".
Definition CARELINK_login : string :=
  "https://carelink.minimed.com/patient/main/login.do".
Definition CARELINK_csv : string :=
  "https://carelink.minimed.com/patient/main/selectCSV.do".

(** The headers of [defaultOptions(jar)]; the cookie jar is shared by all
    requests and is left implicit. *)
Definition defaultOptions_headers : list (string * string) :=
  [("Host", "carelink.minimed.com");
   ("Connection", "keep-alive");
   ("Accept", "text/html,application/xhtml+xml,application/xml;q=0.9,*/*;q=0.8");
   ("User-Agent", "Mozilla/5.0 (Macintosh; Intel Mac OS X 10_8) AppleWebKit/537.36 (KHTML, like Gecko) Chrome/29.0.1547.76 Safari/537.36");
   ("Accept-Encoding", "gzip,deflate,sdch");
   ("Accept-Language", "en-US,en;q=0.8")].

(** A [moment]: the current instant, or an instant moved back by
    [m.subtract(amount, 'days')].  [format('MM/DD/YYYY')] prints its day. *)
Inductive moment : Type :=
| Now
| SubtractDays (amount : value) (m : moment).

(** The calendar day of a moment, counted in days, when the amount
    subtracted is a number. *)
Fixpoint day_of (today : Z) (m : moment) : option Z :=
  match m with
  | Now => Some today
  | SubtractDays (VNum n) m' => option_map (fun d => d - n) (day_of today m')
  | SubtractDays _ _ => None
  end.

(** The [form] of the CSV request. *)
Record csv_form : Type := mkForm {
  report : Z;
  listSeparator : string;
  datePicker1 : moment;
  datePicker2 : moment
}.

(** The days the two date pickers of a form show. *)
Definition window (today : Z) (f : csv_form) : option Z * option Z :=
  (day_of today (datePicker1 f), day_of today (datePicker2 f)).

Record request : Type := mkRequest {
  method : string;
  url : string;
  headers : list (string * string);
  qs : list (string * value);
  form : option csv_form
}.

(** How the two session requests end: the error each passes to [next]. *)
Record Net : Type := mkNet {
  security_error : option error;
  login_error : option error
}.

(** What a call of the fetcher amounts to: the requests it issued, and
    whether it threw, or called [cb] with an error, or called [cb] with the
    stream of its last request. *)
Inductive ending : Type :=
| Threw (e : error)
| CalledBackError (e : error)
| CalledBackStream.

Definition missing (prop : string) : string :=
  ("property[" ++ prop ++ "] must be specified")%string.

(** [module.exports = function (opts, cb)].  [common.step] runs the steps
    one after the other and hands the first error to [cb]. *)
Definition fetch (net : Net) (opts : value) : list request * ending :=
  match pre_hasProperty opts "username" (missing "username") with
  | inl e => ([], Threw e)
  | inr user =>
  match pre_hasProperty opts "password" (missing "password") with
  | inl e => ([], Threw e)
  | inr password =>
  match pre_hasProperty opts "daysAgo" (missing "daysAgo") with
  | inl e => ([], Threw e)
  | inr daysAgo =>
      let security :=
        mkRequest "POST" CARELINK_security defaultOptions_headers
                  [("j_username", user); ("j_password", password)] None in
      match security_error net with
      | Some e => ([security], CalledBackError e)
      | None =>
          let login :=
            mkRequest "GET" CARELINK_login defaultOptions_headers [] None in
          match login_error net with
          | Some e => ([security; login], CalledBackError e)
          | None =>
              let m := Now in
              let csv :=
                mkRequest "POST" CARELINK_csv defaultOptions_headers
                  [("t", VStr "11")]
                  (Some (mkForm 11 ","
                           m
                           (SubtractDays (js_or daysAgo (VNum 14)) m))) in
              ([security; login; csv], CalledBackStream)
          end
      end
  end end end.

End Carelink.

(** ** lib/children/fetch.js *)
Module Job.

(** The four upload options enumerated by [download]. *)
Inductive source : Type := carelink | diasend | tconnect | dexcom.

Definition source_name (k : source) : string :=
  match k with
  | carelink => "carelink"
  | diasend => "diasend"
  | tconnect => "tconnect"
  | dexcom => "dexcom"
  end.

(** The file name [download] passes to [fetch] for each option. *)
Definition filename (k : source) : string :=
  match k with
  | carelink => "carelink.csv"
  | diasend => "diasend.xls"
  | tconnect => "tconnect.xml"
  | dexcom => "dexcom.csv"
  end.

Definition source_eqb (a b : source) : bool :=
  match a, b with
  | carelink, carelink | diasend, diasend
  | tconnect, tconnect | dexcom, dexcom => true
  | _, _ => false
  end.

(** Byte streams and stored blobs are opaque to the job. *)
Definition stream : Type := string.
Definition blob : Type := string.

(** What [antacid.fetch(config, cb)] does: it throws, or it later calls
    back with an error or with a data stream. *)
Inductive fetch_result : Type :=
| FetchThrow (e : error)
| FetchError (e : error)
| FetchStream (dataStream : stream).

(** What the observable returned by [antacid.parse] does: it emits the
    listed records in order and then completes ([None]) or errors. *)
Definition observable : Type := (list value * option error)%type.

(** An entry of the [in-d-gestion] registry. *)
Record antacid : Type := mkAntacid {
  antacid_fetch : value -> fetch_result;
  antacid_parse : blob -> value -> observable
}.

(** Calls the job makes on its collaborators, in the order it makes them.
    [slot] records which of [download]'s four tasks issued a fetch. *)
Inductive event : Type :=
| EvMongoStart
| EvMongoClose
| EvLogInfo (fmt : string) (args : list value)
| EvLogWarn (err : error) (fmt : string) (args : list value)
| EvWriteFileSync (dir file : string) (json : value)
| EvAntacidFetch (slot : source) (type config : value)
| EvStorageSave (groupId : value) (file : string) (dataStream : stream)
| EvUnlink (file : value)
| EvDeleteData (groupId : value)
| EvStorageGet (location : value)
| EvAntacidParse (src : value) (data : blob) (config : value)
| EvStoreData (records : list value).

(** How the process ends: [process.exit(code)], or an exception nobody
    catches. *)
Inductive outcome : Type :=
| Exit (code : Z)
| Uncaught (e : error).

(** A step of the rx subscription: the source array hands its next
    element to the [flatMap] selector, or the [i]-th inner observable emits
    its next notification. *)
Inductive tick : Type :=
| OuterNext
| InnerNext (i : nat).

(** Everything outside the script: the launch argument, the collaborators'
    answers and the order in which pending callbacks are run. *)
Record Env : Type := mkEnv {
  taskStorageDir : option string;
  JSON_parse : string -> error + value;
  mongo_start : option error;
  ingestion : string -> option antacid;
  storage_save : value -> string -> stream -> option error * value;
  storage_get : value -> blob;
  fs_unlink : value -> option error;
  deleteData_error : value -> option error;
  storeData_error : list value -> option error;
  fetch_order : list source;
  parse_order : list tick
}.

(** The persisted-record collection. *)
Definition store : Type := list value.

(** *** The effect monad: collaborator calls are logged, the collection is
    threaded, and the process may end at any point. *)
Record Run (A : Type) : Type := mkRun {
  trace : list event;
  db : store;
  res : outcome + A
}.
Arguments mkRun {A} _ _ _.
Arguments trace {A} _.
Arguments db {A} _.
Arguments res {A} _.

Definition M (A : Type) : Type := store -> Run A.

Definition ret {A} (a : A) : M A := fun s => mkRun [] s (inr a).

Definition bind {A B} (m : M A) (f : A -> M B) : M B :=
  fun s =>
    let r := m s in
    match res r with
    | inl o => mkRun (trace r) (db r) (inl o)
    | inr a => let r' := f a (db r) in
               mkRun (trace r ++ trace r') (db r') (res r')
    end.

Definition emit (e : event) : M unit := fun s => mkRun [e] s (inr tt).
Definition exit {A} (code : Z) : M A := fun s => mkRun [] s (inl (Exit code)).
Definition throw {A} (e : error) : M A := fun s => mkRun [] s (inl (Uncaught e)).

Declare Scope job_scope.
Delimit Scope job_scope with job.
Notation "x <- m ;; k" := (bind m (fun x => k))
  (at level 100, m at next level, right associativity) : job_scope.
Notation "m ;; k" := (bind m (fun _ => k))
  (at level 100, right associativity) : job_scope.
Open Scope job_scope.

(** [input.lastIndexOf('}') === input.length - 1]: the text ends with a
    closing brace, or is empty (both sides are then [-1]). *)
Fixpoint ends_with_brace (input : string) : bool :=
  match input with
  | EmptyString => true
  | String c EmptyString => Ascii.eqb c "}"
  | String _ rest => ends_with_brace rest
  end.

(** The records of group [g] in a collection. *)
Definition in_group (g : value) (r : value) : bool :=
  value_eqb (get_prop r "_groupId") g.

Definition persisted (g : value) (s : store) : list value :=
  filter (in_group g) s.

(** The pending callback of one of [download]'s tasks, with the answer it
    will be called with. *)
Inductive task : Type :=
| AwaitTick
| AwaitFetch (answer : error + stream)
| AwaitSave (err : option error) (loc : value)
| AwaitUnlink (err : option error) (location : value) (error : option error)
| Settled (result : value).

Definition tasks : Type := source -> task.

Definition set_task (ts : tasks) (k : source) (t : task) : tasks :=
  fun k' => if source_eqb k k' then t else ts k'.

(** State of the merged subscription: the descriptors not yet handed to
    the [flatMap] selector, the inner observables subscribed so far (what
    each has left to emit), and [resultsArray]. *)
Record merge_state : Type := mkMerge {
  pending : list value;
  inners : list observable;
  resultsArray : list value
}.

Fixpoint replace_nth {A} (i : nat) (x : A) (l : list A) : list A :=
  match l, i with
  | [], _ => []
  | _ :: rest, O => x :: rest
  | y :: rest, S j => y :: replace_nth j x rest
  end.

Section WithEnv.

Variable env : Env.

(** Modelled from the spec: [streamDAO.deleteData(groupId, cb)] is not
    among the sources.  It deletes all previously persisted records for
    the group and calls back; a failed call reports its error and is
    taken to leave the collection as it was. *)
Definition deleteData (groupId : value) : M (option error) :=
  fun s =>
    match deleteData_error env groupId with
    | Some e => mkRun [EvDeleteData groupId] s (inr (Some e))
    | None =>
        mkRun [EvDeleteData groupId]
              (filter (fun r => negb (in_group groupId r)) s) (inr None)
    end.

(** Modelled from the spec: [streamDAO.storeData(records, cb)] is not
    among the sources.  It persists the full collection in one bulk
    call; a failed call reports its error and is taken to write
    nothing. *)
Definition storeData (records : list value) : M (option error) :=
  fun s =>
    match storeData_error env records with
    | Some e => mkRun [EvStoreData records] s (inr (Some e))
    | None => mkRun [EvStoreData records] (s ++ records) (inr None)
    end.

(** [fail(reason, error)] *)
Definition fail {A} (reason : string) (error : error) : M A :=
  emit EvMongoClose;;
  emit (EvLogWarn error "Failing due to error, with reason[%s]." [VStr reason]);;
  match taskStorageDir env with
  | Some dir =>
      emit (EvWriteFileSync dir "error.json" (VObj [("reason", VStr reason)]))
  | None => ret tt
  end;;
  exit 255.

(** [fetch(groupId, filename, config, cb)] up to the point where it
    returns: the callback it leaves pending.  The two byte-counting
    listeners on the data stream only log and are left out. *)
Definition fetch (slot : source) (groupId : value) (file : string)
           (config : value) : M task :=
  if is_nullish config then ret AwaitTick
  else
    let type := get_prop config "type" in
    match ingestion env (js_string type) with
    | None =>
        throw (ISE ("Unknown service[" ++ js_string type ++ "] to fetch from.")%string)
    | Some antacid =>
        emit (EvLogInfo "Fetching %s data for user[%s]"
                        [type; get_prop config "username"]);;
        emit (EvAntacidFetch slot type config);;
        match antacid_fetch antacid config with
        | FetchThrow e => throw e
        | FetchError e => ret (AwaitFetch (inl e))
        | FetchStream dataStream => ret (AwaitFetch (inr dataStream))
        end
    end.

(** The final callback of [async.parallel] in [download], on an error. *)
Definition download_failed {A} (error : error) : M A :=
  fail (message error) error.

(** [cb(err, result)] of one of the parallel tasks: async reports the
    first error to the final callback at once and otherwise records the
    result. *)
Definition parallel_cb (err : option error) (result : value) : M task :=
  match err with
  | Some e => download_failed e
  | None => ret (Settled result)
  end.

(** The callbacks [download] passes to [fetch], one per option. *)
Definition fetched (config : value) (k : source) (err : option error)
           (loc : value) : M task :=
  match k with
  | carelink =>
      parallel_cb err
        (if is_nullish loc then loc
         else VObj [("source", VStr "carelink"); ("location", loc);
                    ("config", get_prop config "carelink")])
  | diasend =>
      parallel_cb err
        (if is_nullish loc then loc
         else VObj [("source", VStr "diasend"); ("location", loc);
                    ("config", get_prop config "diasend")])
  | tconnect =>
      parallel_cb err
        (if is_nullish loc then loc
         else VObj [("source", VStr "tconnect"); ("location", loc)])
  | dexcom =>
      let file := get_prop (get_prop config "dexcom") "file" in
      emit (EvUnlink file);;
      ret (AwaitUnlink err loc (fs_unlink env file))
  end.

(** Runs the pending callback of task [k]. *)
Definition resume (config : value) (k : source) (t : task) : M task :=
  match t with
  | AwaitTick =>
      match k with
      | dexcom => parallel_cb None VUndefined
      | _ => fetched config k None VUndefined
      end
  | AwaitFetch (inl err) => fail "Couldn't fetch!?" err
  | AwaitFetch (inr dataStream) =>
      let groupId := get_prop config "groupId" in
      emit (EvStorageSave groupId (filename k) dataStream);;
      let (err, loc) := storage_save env groupId (filename k) dataStream in
      ret (AwaitSave err loc)
  | AwaitSave err loc => fetched config k err loc
  | AwaitUnlink err location error =>
      match error with
      | Some e =>
          emit (EvLogWarn e "error deleting file[%s]"
                          [get_prop (get_prop config "dexcom") "file"])
      | None => ret tt
      end;;
      parallel_cb err
        (VObj [("source", VStr "dexcom"); ("location", location);
               ("config", get_prop config "dexcom")])
  | Settled result => ret (Settled result)
  end.

(** The synchronous part of each of the four tasks of [download]. *)
Definition start_task (config : value) (k : source) : M task :=
  match k with
  | dexcom =>
      if is_nullish (get_prop config "dexcom") then ret AwaitTick
      else fetch dexcom (get_prop config "groupId") "dexcom.csv"
                 (get_prop config "dexcom")
  | _ =>
      fetch k (get_prop config "groupId") (filename k)
            (get_prop config (source_name k))
  end.

(** Pending callbacks are run in the given order. *)
Fixpoint run_callbacks (config : value) (order : list source) (ts : tasks)
  : M tasks :=
  match order with
  | [] => ret ts
  | k :: rest =>
      t <- resume config k (ts k);;
      run_callbacks config rest (set_task ts k t)
  end.

(** Callbacks still pending once the environment's order is used up run
    option by option; three rounds settle any task. *)
Definition drain_order : list source :=
  [carelink; carelink; carelink; diasend; diasend; diasend;
   tconnect; tconnect; tconnect; dexcom; dexcom; dexcom].

Definition task_result (t : task) : value :=
  match t with
  | Settled result => result
  | _ => VUndefined
  end.

(** [download(config, callback)]: the value handed to [callback]. *)
Definition download (config : value) : M (list value) :=
  t1 <- start_task config carelink;;
  t2 <- start_task config diasend;;
  t3 <- start_task config tconnect;;
  t4 <- start_task config dexcom;;
  let ts := fun k => match k with
                     | carelink => t1 | diasend => t2
                     | tconnect => t3 | dexcom => t4
                     end in
  ts' <- run_callbacks config (fetch_order env ++ drain_order) ts;;
  let locations := map (fun k => task_result (ts' k))
                       [carelink; diasend; tconnect; dexcom] in
  ret (filter (fun e => negb (is_nullish e)) locations).

(** [removeData(groupId, cb)] *)
Definition removeData (groupId : value) : M (option error) :=
  emit (EvLogInfo "Deleting all data for group[%s]" [groupId]);;
  deleteData groupId.

(** The [flatMap] selector; what it throws is caught by rx and becomes
    the subscription's error. *)
Definition parse_location (locSpec : value) : M (error + observable) :=
  let src := get_prop locSpec "source" in
  match ingestion env (js_string src) with
  | None => ret (inl (ISE ("Unknown data source[" ++ js_string src ++ "]")%string))
  | Some antacid =>
      let location := get_prop locSpec "location" in
      emit (EvStorageGet location);;
      emit (EvAntacidParse src (storage_get env location)
                           (get_prop locSpec "config"));;
      ret (inr (antacid_parse antacid (storage_get env location)
                              (get_prop locSpec "config")))
  end.

(** The [map] selector, [e._groupId = config.groupId; return e]; the
    file is in strict mode, so the assignment throws unless [e] is an
    object. *)
Definition set_groupId (config : value) (e : value) : error + value :=
  match e with
  | VObj fields =>
      inr (VObj (assign_field "_groupId" (get_prop config "groupId") fields))
  | _ => inl (TypeError "Cannot assign property _groupId")
  end.

(** One notification of the merged subscription. *)
Definition merge_step (config : value) (t : tick) (st : merge_state)
  : M merge_state :=
  match t with
  | OuterNext =>
      match pending st with
      | [] => ret st
      | locSpec :: rest =>
          r <- parse_location locSpec;;
          match r with
          | inl err => fail "Problem parsing data" err
          | inr obs => ret (mkMerge rest (inners st ++ [obs]) (resultsArray st))
          end
      end
  | InnerNext i =>
      match nth_error (inners st) i with
      | None => ret st
      | Some ([], None) => ret st
      | Some ([], Some err) => fail "Problem parsing data" err
      | Some (e :: more, fin) =>
          match set_groupId config e with
          | inl err => fail "Problem parsing data" err
          | inr e' =>
              ret (mkMerge (pending st)
                           (replace_nth i (more, fin) (inners st))
                           (resultsArray st ++ [e']))
          end
      end
  end.

Fixpoint merge_steps (config : value) (ticks : list tick) (st : merge_state)
  : M merge_state :=
  match ticks with
  | [] => ret st
  | t :: rest =>
      st' <- merge_step config t st;;
      merge_steps config rest st'
  end.

(** Ticks that run the inner observables [obs], subscribed at positions
    [i], [i+1], ..., to their ends one after the other. *)
Fixpoint drain_inners (i : nat) (obs : list observable) : list tick :=
  match obs with
  | [] => []
  | (items, _) :: rest =>
      repeat (InnerNext i) (S (List.length items)) ++ drain_inners (S i) rest
  end.

(** The subscription [fromArray(files).flatMap(..).map(..).subscribe(..)]
    up to [onCompleted]: notifications arrive in the environment's
    order; whatever is still outstanding afterwards is delivered in
    order (the remaining descriptors, then each inner observable).  The
    value is [resultsArray] as [onCompleted] finds it. *)
Definition subscribe (config : value) (files : list value) : M (list value) :=
  st <- merge_steps config (parse_order env) (mkMerge files [] []);;
  st <- merge_steps config (repeat OuterNext (List.length (pending st))) st;;
  st <- merge_steps config (drain_inners 0 (inners st)) st;;
  ret (resultsArray st).

(** [go(config)] *)
Definition go (config : value) : M Empty_set :=
  emit EvMongoStart;;
  match mongo_start env with
  | Some err => fail "Just another error" err
  | None =>
      files <- download config;;
      err <- removeData (get_prop config "groupId");;
      match err with
      | Some err => fail "Just another error" err
      | None =>
          resultsArray <- subscribe config files;;
          match resultsArray with
          | [] => fail "No results" (mkError "Error" "No results")
          | _ :: _ =>
              err <- storeData resultsArray;;
              match err with
              | Some err => fail "Problem with DB, Oh Noes!" err
              | None =>
                  emit (EvLogInfo "Persisted[%s] events to db."
                          [VNum (Z.of_nat (List.length resultsArray))]);;
                  emit EvMongoClose;;
                  exit 0
              end
          end
      end
  end.

(** What the stdin handler does with the parsed job description. *)
Definition job (config : value) : M Empty_set :=
  match pre_hasProperty config "groupId" "groupId is a required property" with
  | inl e => throw e
  | inr _ => go config
  end.

(** The [process.stdin.on('data', ..)] handler: the new value of [input]
    ([None] is [null]) and what the handler sets off. *)
Definition on_data (input : option string) (chunk : string)
  : option string * M unit :=
  let input' := (match input with Some s => s | None => "null" end
                 ++ chunk)%string in
  if ends_with_brace input' then
    match JSON_parse env input' with
    | inl e => (Some input', throw e)
    | inr config => (None, r <- job config;; match r with end)
    end
  else (Some input', ret tt).

End WithEnv.

End Job.

(** ** Vocabulary for stating the job's properties *)
Import Job.

(** The events [fail] leaves behind before it exits. *)
Definition fail_events (env : Env) (reason : string) (err : error) : list event :=
  [EvMongoClose;
   EvLogWarn err "Failing due to error, with reason[%s]." [VStr reason]] ++
  match taskStorageDir env with
  | Some dir => [EvWriteFileSync dir "error.json" (VObj [("reason", VStr reason)])]
  | None => []
  end.

(** A computation of one stage of the job: it leaves the collection alone,
    emits only events in [P], and ends the process only by [fail] or by an
    uncaught error in [U]. *)
Definition stage (env : Env) (P : event -> Prop) (U : error -> Prop)
           {A} (m : M A) : Prop :=
  forall s,
    db (m s) = s /\
    match res (m s) with
    | inr _ => Forall P (trace (m s))
    | inl (Uncaught e) => Forall P (trace (m s)) /\ U e
    | inl (Exit c) =>
        c = 255 /\
        exists pre reason err,
          trace (m s) = pre ++ fail_events env reason err /\ Forall P pre
    end.

(** Events of the fetch stage and of the parse stage. *)
Definition fetch_event (e : event) : Prop :=
  match e with
  | EvLogInfo _ _ | EvLogWarn _ _ _ | EvAntacidFetch _ _ _
  | EvStorageSave _ _ _ | EvUnlink _ => True
  | _ => False
  end.

Definition parse_event (e : event) : Prop :=
  match e with
  | EvStorageGet _ | EvAntacidParse _ _ _ => True
  | _ => False
  end.

Definition no_event (e : event) : Prop := False.
Definition no_error (e : error) : Prop := False.

(** The configuration of option [k] in a job description. *)
Definition source_config (config : value) (k : source) : value :=
  get_prop config (source_name k).

Definition all_sources : list source := [carelink; diasend; tconnect; dexcom].

(** What the blob store answers for option [k], provided the registry has a
    Fetcher for the option's [type] and that Fetcher delivers a stream. *)
Definition saved (env : Env) (config : value) (k : source)
  : option (option error * value) :=
  let cfg := source_config config k in
  match ingestion env (js_string (get_prop cfg "type")) with
  | Some a =>
      match antacid_fetch a cfg with
      | FetchStream dataStream =>
          Some (storage_save env (get_prop config "groupId") (filename k) dataStream)
      | _ => None
      end
  | None => None
  end.

(** The fetch of option [k] succeeded: the payload was fetched and stored. *)
Definition fetch_succeeded (env : Env) (config : value) (k : source) : Prop :=
  exists loc, saved env config k = Some (None, loc).

(** The location descriptor [download] builds for option [k]. *)
Definition descriptor (config : value) (k : source) (loc : value) : value :=
  match k with
  | tconnect => VObj [("source", VStr "tconnect"); ("location", loc)]
  | _ => VObj [("source", VStr (source_name k)); ("location", loc);
               ("config", source_config config k)]
  end.

(** What the task of option [k] hands to async when nothing fails. *)
Definition location_of (env : Env) (config : value) (k : source) : value :=
  if is_nullish (source_config config k) then VUndefined
  else
    match saved env config k with
    | Some (None, loc) =>
        match k with
        | dexcom => descriptor config k loc
        | _ => if is_nullish loc then loc else descriptor config k loc
        end
    | _ => VUndefined
    end.

(** The descriptors [download] hands on when every fetch succeeds. *)
Definition locations (env : Env) (config : value) : list value :=
  filter (fun e => negb (is_nullish e)) (map (location_of env config) all_sources).

(** The uncaught errors of the fetch stage: no Fetcher is registered for a
    configured option's [type], or the Fetcher itself throws. *)
Definition thrown_at_fetch (env : Env) (config : value) (e : error) : Prop :=
  exists k,
    let cfg := source_config config k in
    is_nullish cfg = false /\
    match ingestion env (js_string (get_prop cfg "type")) with
    | None => e = ISE ("Unknown service[" ++ js_string (get_prop cfg "type")
                       ++ "] to fetch from.")%string
    | Some a => antacid_fetch a cfg = FetchThrow e
    end.

(** A pending callback agrees with what the collaborators answer. *)
Definition task_inv (env : Env) (config : value) (k : source) (t : task) : Prop :=
  let cfg := source_config config k in
  match t with
  | AwaitTick => is_nullish cfg = true
  | AwaitFetch answer =>
      is_nullish cfg = false /\
      exists a, ingestion env (js_string (get_prop cfg "type")) = Some a /\
                antacid_fetch a cfg =
                match answer with
                | inl e => FetchError e
                | inr dataStream => FetchStream dataStream
                end
  | AwaitSave err loc =>
      is_nullish cfg = false /\ saved env config k = Some (err, loc)
  | AwaitUnlink err loc error =>
      k = dexcom /\ is_nullish cfg = false /\ saved env config k = Some (err, loc)
  | Settled result =>
      result = location_of env config k /\
      (is_nullish cfg = false -> fetch_succeeded env config k)
  end.

Definition is_settled (t : task) : Prop :=
  match t with
  | Settled _ => True
  | _ => False
  end.

(** The warning logged when the staging file could not be removed. *)
Definition unlink_warning (config : value) (error : option error) : list event :=
  match error with
  | Some e => [EvLogWarn e "error deleting file[%s]"
                         [get_prop (get_prop config "dexcom") "file"]]
  | None => []
  end.

(** How many callbacks a task still has to run, at most. *)
Definition rank (t : task) : nat :=
  match t with
  | AwaitFetch _ => 3
  | AwaitSave _ _ => 2
  | AwaitUnlink _ _ _ => 1
  | AwaitTick => 1
  | Settled _ => 0
  end.

Definition source_eq_dec (a b : source) : {a = b} + {a <> b}.
Proof. decide equality. Defined.

(** A record carries the job's group identifier. *)
Definition tagged (config : value) (r : value) : Prop :=
  exists fields, r = VObj fields /\
                 lookup_field "_groupId" fields = Some (get_prop config "groupId").

(** Kinds of collaborator calls. *)
Definition is_fetch_call (e : event) : Prop :=
  match e with
  | EvAntacidFetch _ _ _ | EvStorageSave _ _ _ | EvUnlink _ => True
  | _ => False
  end.

Definition is_parse_call (e : event) : Prop :=
  match e with
  | EvStorageGet _ | EvAntacidParse _ _ _ => True
  | _ => False
  end.

Definition is_store_call (e : event) : Prop :=
  match e with
  | EvStoreData _ => True
  | _ => False
  end.

Definition is_delete_call (e : event) : Prop :=
  match e with
  | EvDeleteData _ => True
  | _ => False
  end.

Definition is_close_call (e : event) : Prop :=
  match e with
  | EvMongoClose => True
  | _ => False
  end.

(** What [removeData] emits, and what a successful deletion leaves. *)
Definition delete_events (g : value) : list event :=
  [EvLogInfo "Deleting all data for group[%s]" [g]; EvDeleteData g].

Definition purge (g : value) (s : store) : store :=
  filter (fun r => negb (in_group g r)) s.

(** What the success path emits from the bulk store on. *)
Definition success_events (results : list value) : list event :=
  [EvStoreData results;
   EvLogInfo "Persisted[%s] events to db." [VNum (Z.of_nat (List.length results))];
   EvMongoClose].

(** The fetch stage went through: [t1] is its trace, [files] what it hands on. *)
Definition fetched_all (env : Env) (config : value) (s : store)
           (t1 : list event) (files : list value) : Prop :=
  download env config s = mkRun t1 s (inr files) /\
  Forall fetch_event t1 /\
  files = locations env config /\
  forall k, is_nullish (source_config config k) = false -> fetch_succeeded env config k.

(** The ways a job can go, stage by stage. *)
Inductive ending (env : Env) (config : value) (s : store) : Run Empty_set -> Prop :=
| end_no_groupId :
    is_nullish (get_prop config "groupId") = true ->
    ending env config s
      (mkRun [] s (inl (Uncaught (IAE "groupId is a required property"))))
| end_start_failed err :
    mongo_start env = Some err ->
    ending env config s
      (mkRun (EvMongoStart :: fail_events env "Just another error" err) s
             (inl (Exit 255)))
| end_fetch_thrown t1 e :
    download env config s = mkRun t1 s (inl (Uncaught e)) ->
    Forall fetch_event t1 ->
    thrown_at_fetch env config e ->
    ending env config s (mkRun (EvMongoStart :: t1) s (inl (Uncaught e)))
| end_fetch_failed t1 reason err :
    download env config s =
      mkRun (t1 ++ fail_events env reason err) s (inl (Exit 255)) ->
    Forall fetch_event t1 ->
    ending env config s
      (mkRun (EvMongoStart :: t1 ++ fail_events env reason err) s (inl (Exit 255)))
| end_delete_failed t1 files err :
    fetched_all env config s t1 files ->
    deleteData_error env (get_prop config "groupId") = Some err ->
    ending env config s
      (mkRun (EvMongoStart :: t1 ++ delete_events (get_prop config "groupId") ++
              fail_events env "Just another error" err) s (inl (Exit 255)))
| end_parse_failed t1 files t2 reason err :
    fetched_all env config s t1 files ->
    deleteData_error env (get_prop config "groupId") = None ->
    subscribe env config files (purge (get_prop config "groupId") s) =
      mkRun (t2 ++ fail_events env reason err)
            (purge (get_prop config "groupId") s) (inl (Exit 255)) ->
    Forall parse_event t2 ->
    ending env config s
      (mkRun (EvMongoStart :: t1 ++ delete_events (get_prop config "groupId") ++
              t2 ++ fail_events env reason err)
             (purge (get_prop config "groupId") s) (inl (Exit 255)))
| end_no_results t1 files t2 :
    fetched_all env config s t1 files ->
    deleteData_error env (get_prop config "groupId") = None ->
    subscribe env config files (purge (get_prop config "groupId") s) =
      mkRun t2 (purge (get_prop config "groupId") s) (inr []) ->
    Forall parse_event t2 ->
    ending env config s
      (mkRun (EvMongoStart :: t1 ++ delete_events (get_prop config "groupId") ++
              t2 ++ fail_events env "No results" (mkError "Error" "No results"))
             (purge (get_prop config "groupId") s) (inl (Exit 255)))
| end_store_failed t1 files t2 results err :
    fetched_all env config s t1 files ->
    deleteData_error env (get_prop config "groupId") = None ->
    subscribe env config files (purge (get_prop config "groupId") s) =
      mkRun t2 (purge (get_prop config "groupId") s) (inr results) ->
    Forall parse_event t2 ->
    results <> [] ->
    Forall (tagged config) results ->
    storeData_error env results = Some err ->
    ending env config s
      (mkRun (EvMongoStart :: t1 ++ delete_events (get_prop config "groupId") ++
              t2 ++ EvStoreData results ::
              fail_events env "Problem with DB, Oh Noes!" err)
             (purge (get_prop config "groupId") s) (inl (Exit 255)))
| end_stored t1 files t2 results :
    fetched_all env config s t1 files ->
    deleteData_error env (get_prop config "groupId") = None ->
    subscribe env config files (purge (get_prop config "groupId") s) =
      mkRun t2 (purge (get_prop config "groupId") s) (inr results) ->
    Forall parse_event t2 ->
    results <> [] ->
    Forall (tagged config) results ->
    storeData_error env results = None ->
    ending env config s
      (mkRun (EvMongoStart :: t1 ++ delete_events (get_prop config "groupId") ++
              t2 ++ success_events results)
             (purge (get_prop config "groupId") s ++ results) (inl (Exit 0))).
(** What [fail] emits. *)
Definition report_event (e : event) : Prop :=
  match e with
  | EvMongoClose | EvLogWarn _ _ _ | EvWriteFileSync _ _ _ => True
  | _ => False
  end.
(** What the parser registered for a descriptor's source makes of it. *)
Definition parsed (env : Env) (locSpec : value) : option observable :=
  match ingestion env (js_string (get_prop locSpec "source")) with
  | Some a =>
      Some (antacid_parse a (storage_get env (get_prop locSpec "location"))
                          (get_prop locSpec "config"))
  | None => None
  end.

Definition is_object (v : value) : Prop :=
  match v with
  | VObj _ => True
  | _ => False
  end.

(** An observable that emits objects only and completes. *)
Definition clean (obs : observable) : Prop :=
  snd obs = None /\ Forall is_object (fst obs).

(** The descriptor's source has a parser and the parse goes through. *)
Definition parses_ok (env : Env) (locSpec : value) : Prop :=
  exists obs, parsed env locSpec = Some obs /\ clean obs.

(** The records parsed from a descriptor, and from a list of descriptors. *)
Definition records_of (env : Env) (locSpec : value) : list value :=
  match parsed env locSpec with
  | Some obs => fst obs
  | None => []
  end.

Definition parsed_records (env : Env) (files : list value) : list value :=
  flat_map (records_of env) files.

(** A record with [_groupId] set to the job's group. *)
Definition tag (config : value) (e : value) : value :=
  match set_groupId config e with
  | inr e' => e'
  | inl _ => e
  end.

(** A subscription in which nothing can go wrong any more, and the records
    it has collected or still has to collect. *)
Definition healthy (env : Env) (st : merge_state) : Prop :=
  Forall (parses_ok env) (pending st) /\ Forall clean (inners st).

Definition outstanding (env : Env) (config : value) (st : merge_state) : list value :=
  resultsArray st ++
  map (tag config) (flat_map fst (inners st)) ++
  map (tag config) (parsed_records env (pending st)).
(** The same collaborators, with callbacks and notifications arriving in
    another order. *)
Definition with_orders (env : Env) (fo : list source) (po : list tick) : Env :=
  mkEnv (taskStorageDir env) (JSON_parse env) (mongo_start env) (ingestion env)
        (storage_save env) (storage_get env) (fs_unlink env)
        (deleteData_error env) (storeData_error env) fo po.
Definition is_unlink_call (e : event) : Prop :=
  match e with
  | EvUnlink _ => True
  | _ => False
  end.

(** The staging file of the dexcom option. *)
Definition dexcom_file (config : value) : value :=
  get_prop (get_prop config "dexcom") "file".


(** What may come before and after the delete call. *)
Definition before_delete (e : event) : Prop :=
  ~ is_parse_call e /\ ~ is_store_call e /\ ~ is_delete_call e.

Definition after_delete (e : event) : Prop :=
  ~ is_fetch_call e /\ ~ is_delete_call e.


(** A trace without the warnings about the staging file. *)
Definition is_unlink_warning (e : event) : bool :=
  match e with
  | EvLogWarn _ fmt _ => String.eqb fmt "error deleting file[%s]"
  | _ => false
  end.

Definition quiet (l : list event) : list event :=
  filter (fun e => negb (is_unlink_warning e)) l.



(** ** Sample environments and job descriptions *)

Definition three_records : list value :=
  [VObj [("type", VStr "smbg"); ("value", VNum 100)];
   VObj [("type", VStr "cbg"); ("value", VNum 110)];
   VObj [("type", VStr "basal"); ("_groupId", VStr "stale")]].

(** An adapter whose Fetcher delivers a payload and whose parser emits three
    records. *)
Definition sample_antacid : antacid :=
  mkAntacid (fun _ => FetchStream "payload") (fun _ _ => (three_records, None)).

(** An adapter whose Fetcher calls back with an error. *)
Definition down_antacid : antacid :=
  mkAntacid (fun _ => FetchError (mkError "Error" "connection refused"))
            (fun _ _ => ([], None)).

Definition sample_registry (for_carelink for_dexcom : antacid) (key : string)
  : option antacid :=
  if String.eqb key "carelink" then Some for_carelink
  else if String.eqb key "dexcom" then Some for_dexcom
  else if (String.eqb key "diasend" || String.eqb key "tconnect")%bool
       then Some sample_antacid
       else None.

(** A task storage directory is given, the database and the blob store
    answer without error, and the blob store names a blob after its file. *)
Definition sample_env (for_carelink for_dexcom : antacid) (order : list source)
  : Env :=
  mkEnv (Some "/tmp/task")
        (fun _ => inl (mkError "SyntaxError" "Unexpected token"))
        None
        (sample_registry for_carelink for_dexcom)
        (fun _ file _ => (None, VStr file))
        js_string
        (fun _ => None)
        (fun _ => None)
        (fun _ => None)
        order [].

(** Every adapter works. *)
Definition healthy_env : Env := sample_env sample_antacid sample_antacid [].

(** The dexcom Fetcher calls back with an error. *)
Definition dexcom_down_env : Env := sample_env sample_antacid down_antacid [].

(** The blob store calls back with an error. *)
Definition save_down_env : Env :=
  mkEnv (Some "/tmp/task")
        (fun _ => inl (mkError "SyntaxError" "Unexpected token"))
        None
        (sample_registry sample_antacid sample_antacid)
        (fun _ _ _ => (Some (mkError "Error" "disk full"), VUndefined))
        js_string
        (fun _ => None)
        (fun _ => None)
        (fun _ => None)
        [] [].


(** [{groupId: 'g1', carelink: {type: 'carelink', username: 'u', password: 'p'}}] *)
Definition carelink_job : value :=
  VObj [("groupId", VStr "g1");
        ("carelink", VObj [("type", VStr "carelink"); ("username", VStr "u");
                           ("password", VStr "p")])].

(** [{groupId: 'g2'}] *)
Definition empty_job : value := VObj [("groupId", VStr "g2")].

(** [{carelink: {type: 'carelink', username: 'u', password: 'p'}}] *)
Definition no_group_job : value :=
  VObj [("carelink", VObj [("type", VStr "carelink"); ("username", VStr "u");
                           ("password", VStr "p")])].

(** [{groupId: 'g3', dexcom: {type: 'dexcom', file: '/tmp/upload.csv'}}] *)
Definition dexcom_job : value :=
  VObj [("groupId", VStr "g3");
        ("dexcom", VObj [("type", VStr "dexcom"); ("file", VStr "/tmp/upload.csv")])].

(** [{groupId: 'g5', carelink: {type: 'carelink', username: 'u'},
     dexcom: {type: 'dexcom', file: '/tmp/upload.csv'}}] *)
Definition carelink_dexcom_job : value :=
  VObj [("groupId", VStr "g5");
        ("carelink", VObj [("type", VStr "carelink"); ("username", VStr "u")]);
        ("dexcom", VObj [("type", VStr "dexcom"); ("file", VStr "/tmp/upload.csv")])].

(** [{groupId: 'g4', tconnect: {type: 'tconnect', username: 'u'}}] *)
Definition tconnect_job : value :=
  VObj [("groupId", VStr "g4");
        ("tconnect", VObj [("type", VStr "tconnect"); ("username", VStr "u")])].

(** A collection holding a record of group [g1] and one of group [g9]. *)
Definition sample_store : store :=
  [VObj [("type", VStr "smbg"); ("_groupId", VStr "g1")];
   VObj [("type", VStr "cbg"); ("_groupId", VStr "g9")]].
(** A call made on behalf of option [k]: its Fetcher, the blob saved under
    its file name, or the parser registered under its name. *)
Definition concerns (k : source) (e : event) : Prop :=
  match e with
  | EvAntacidFetch slot _ _ => slot = k
  | EvStorageSave _ file _ => file = filename k
  | EvAntacidParse src _ _ => src = VStr (source_name k)
  | _ => False
  end.

(** A descriptor of option [k]. *)
Definition has_source (k : source) (d : value) : bool :=
  strict_eq_str (get_prop d "source") (source_name k).
(** The parser call a descriptor leads to, and the parser calls of a trace. *)
Definition parse_call (env : Env) (locSpec : value) : event :=
  EvAntacidParse (get_prop locSpec "source")
                 (storage_get env (get_prop locSpec "location"))
                 (get_prop locSpec "config").

Definition is_antacid_parse (e : event) : bool :=
  match e with
  | EvAntacidParse _ _ _ => true
  | _ => false
  end.

Definition parse_calls (l : list event) : list event := filter is_antacid_parse l.
(** The calls of the fetch stage made for option [k]: the call of its
    Fetcher, the blob save under its file name and, for dexcom, the removal
    of the staging file. *)
Definition fetch_call_of (k : source) (e : event) : bool :=
  match e with
  | EvAntacidFetch slot _ _ => source_eqb slot k
  | EvStorageSave _ file _ => String.eqb file (filename k)
  | EvUnlink _ => source_eqb k dexcom
  | _ => false
  end.

Definition fetch_calls (k : source) (l : list event) : list event :=
  filter (fetch_call_of k) l.

(** The removal of the staging file, once the blob save has called back. *)
Definition unlink_call (config : value) (k : source) : list event :=
  match k with
  | dexcom => [EvUnlink (dexcom_file config)]
  | _ => []
  end.

(** The calls the fetch stage makes for option [k] when nothing cuts it
    short, read off the collaborators' answers. *)
Definition expected_fetch_calls (env : Env) (config : value) (k : source)
  : list event :=
  let cfg := source_config config k in
  if is_nullish cfg then []
  else
    match ingestion env (js_string (get_prop cfg "type")) with
    | None => []
    | Some a =>
        EvAntacidFetch k (get_prop cfg "type") cfg ::
        match antacid_fetch a cfg with
        | FetchStream dataStream =>
            EvStorageSave (get_prop config "groupId") (filename k) dataStream ::
            unlink_call config k
        | _ => []
        end
    end.

(** The calls for option [k] still to come when its task is at [t]. *)
Definition calls_to_come (config : value) (k : source) (t : task) : list event :=
  match t with
  | AwaitFetch (inr dataStream) =>
      EvStorageSave (get_prop config "groupId") (filename k) dataStream ::
      unlink_call config k
  | AwaitSave _ _ => unlink_call config k
  | _ => []
  end.

(** The calls for option [k] in a computation's trace are a first part of
    [full], what is left being given by the computation's value. *)
Definition accounted (k : source) (full : list event) {A} (r : Run A)
           (rest : A -> list event) : Prop :=
  match res r with
  | inr a => fetch_calls k (trace r) ++ rest a = full
  | inl _ => exists more, full = fetch_calls k (trace r) ++ more
  end.
(** The blob store calls back without an error and without a location. *)
Definition unlocated_env : Env :=
  mkEnv (Some "/tmp/task")
        (fun _ => inl (mkError "SyntaxError" "Unexpected token"))
        None
        (sample_registry sample_antacid sample_antacid)
        (fun _ _ _ => (None, VNull))
        js_string
        (fun _ => None)
        (fun _ => None)
        (fun _ => None)
        [] [].
(** Why the fetch stage reports a failure: a Fetcher called back with an
    error, or the blob store did. *)
Inductive fetch_failure (env : Env) (config : value) : string -> error -> Prop :=
| fetcher_failed (k : source) (a : antacid) (err : error) :
    is_nullish (source_config config k) = false ->
    ingestion env (js_string (get_prop (source_config config k) "type")) = Some a ->
    antacid_fetch a (source_config config k) = FetchError err ->
    fetch_failure env config "Couldn't fetch!?" err
| save_failed (k : source) (err : error) (loc : value) :
    is_nullish (source_config config k) = false ->
    saved env config k = Some (Some err, loc) ->
    fetch_failure env config (message err) err.

(** Why the parse stage reports a failure: a descriptor's source has no
    parser, a parse ends in an error, or a parse emits something that is
    not an object. *)
Inductive parse_failure (env : Env) (files : list value) : error -> Prop :=
| no_parser (d : value) :
    In d files ->
    ingestion env (js_string (get_prop d "source")) = None ->
    parse_failure env files
      (ISE ("Unknown data source[" ++ js_string (get_prop d "source") ++ "]")%string)
| parse_error (d : value) (obs : observable) (err : error) :
    In d files -> parsed env d = Some obs -> snd obs = Some err ->
    parse_failure env files err
| not_an_object (d : value) (obs : observable) (e : value) :
    In d files -> parsed env d = Some obs -> In e (fst obs) -> ~ is_object e ->
    parse_failure env files (TypeError "Cannot assign property _groupId").

(** The reasons a job reports, and the errors that go with them. *)
Inductive failure (env : Env) (config : value) : string -> error -> Prop :=
| start_failure (err : error) :
    mongo_start env = Some err ->
    failure env config "Just another error" err
| fetch_stage_failure (reason : string) (err : error) :
    fetch_failure env config reason err ->
    failure env config reason err
| delete_failure (err : error) :
    deleteData_error env (get_prop config "groupId") = Some err ->
    failure env config "Just another error" err
| parse_stage_failure (err : error) :
    parse_failure env (locations env config) err ->
    failure env config "Problem parsing data" err
| no_results_failure :
    failure env config "No results" (mkError "Error" "No results")
| store_failure (results : list value) (err : error) :
    storeData_error env results = Some err ->
    failure env config "Problem with DB, Oh Noes!" err.

(** A run that exits does so through [fail], after events in [P] only and
    with a reason and an error in [R]. *)
Definition failing (env : Env) (P : event -> Prop) (R : string -> error -> Prop)
           {A} (r : Run A) : Prop :=
  forall c, res r = inl (Exit c) ->
    exists pre reason err,
      trace r = pre ++ fail_events env reason err /\ Forall P pre /\ R reason err.

(** An inner observable of the subscription is what is left of the parse of
    one of the descriptors. *)
Definition inner_of (env : Env) (files : list value) (o : observable) : Prop :=
  exists d obs consumed,
    In d files /\ parsed env d = Some obs /\
    fst obs = consumed ++ fst o /\ snd obs = snd o.

Definition sound (env : Env) (files : list value) (st : merge_state) : Prop :=
  incl (pending st) files /\ Forall (inner_of env files) (inners st).

Definition parse_stage_reason (env : Env) (files : list value)
           (reason : string) (err : error) : Prop :=
  reason = "Problem parsing data" /\ parse_failure env files err.
(** The writing of the error artifact. *)
Definition is_artifact_write (e : event) : Prop :=
  match e with
  | EvWriteFileSync _ _ _ => True
  | _ => False
  end.
(** * Properties *)

(** ** Facts about values *)

Lemma get_prop_assign (fields : list (string * value)) (k : string) (v : value) :
  lookup_field k (assign_field k v fields) = Some v.
Proof.
  induction fields as [|[k' v'] rest IH]; simpl.
  - now rewrite String.eqb_refl.
  - destruct (String.eqb k k') eqn:E; simpl.
    + now rewrite String.eqb_refl.
    + now rewrite E.
Qed.

Lemma strict_eq_str_true (a : value) (lit : string) :
  strict_eq_str a lit = true <-> a = VStr lit.
Proof.
  destruct a; simpl; split; try discriminate.
  - intros H. apply String.eqb_eq in H. now subst.
  - intros H. injection H as ->. apply String.eqb_refl.
Qed.

Lemma nullish_not_truthy (v : value) : is_nullish v = true -> truthy v = false.
Proof. destruct v; simpl; congruence. Qed.

(** C9. The sync-task predicates are total functions; [isSuccessful] holds
    exactly for a non-null task whose status is ['success'], [isFailed]
    exactly for a non-null task whose status is ['error'], never both; on
    [null] and [undefined] both are false and [getTaskId] is [null]. *)
Theorem synctask_predicates (task : value) :
  (SyncTask.isSuccessful task = true <->
     is_nullish task = false /\ get_prop task "status" = VStr "success") /\
  (SyncTask.isFailed task = true <->
     is_nullish task = false /\ get_prop task "status" = VStr "error") /\
  (SyncTask.isSuccessful task && SyncTask.isFailed task = false) /\
  (is_nullish task = true ->
     SyncTask.isSuccessful task = false /\
     SyncTask.isFailed task = false /\
     SyncTask.getTaskId task = VNull).
Proof.
  unfold SyncTask.isSuccessful, SyncTask.isFailed, SyncTask.getTaskId.
  repeat split.
  - destruct task; simpl in *; congruence.
  - destruct (truthy task); simpl in H; [now apply strict_eq_str_true | discriminate].
  - intros [Hn Hs]. rewrite Hs.
    destruct task; simpl in *; try discriminate. reflexivity.
  - destruct task; simpl in *; congruence.
  - destruct (truthy task); simpl in H; [now apply strict_eq_str_true | discriminate].
  - intros [Hn Hs]. rewrite Hs.
    destruct task; simpl in *; try discriminate. reflexivity.
  - destruct (truthy task); simpl; [|reflexivity].
    destruct (get_prop task "status"); simpl; try reflexivity.
    destruct (String.eqb s "success") eqn:E; simpl; [|reflexivity].
    apply String.eqb_eq in E. now subst.
  - now rewrite (nullish_not_truthy _ H).
  - now rewrite (nullish_not_truthy _ H).
  - now rewrite (nullish_not_truthy _ H).
Qed.

(** ** The effect monad *)

Lemma bind_inl {A B} (m : M A) (f : A -> M B) (s : store) (o : outcome) :
  res (m s) = inl o ->
  bind m f s = mkRun (trace (m s)) (db (m s)) (inl o).
Proof. unfold bind. now intros ->. Qed.

Lemma bind_inr {A B} (m : M A) (f : A -> M B) (s : store) (a : A) :
  res (m s) = inr a ->
  bind m f s = mkRun (trace (m s) ++ trace (f a (db (m s))))
                     (db (f a (db (m s)))) (res (f a (db (m s)))).
Proof. unfold bind. now intros ->. Qed.

Lemma fail_run (env : Env) {A} (reason : string) (err : error) (s : store) :
  @fail env A reason err s = mkRun (fail_events env reason err) s (inl (Exit 255)).
Proof.
  unfold fail, fail_events, bind, emit, exit, ret.
  destruct (taskStorageDir env); reflexivity.
Qed.

Section Stage.

Variable env : Env.
Variable P : event -> Prop.
Variable U : error -> Prop.

Lemma stage_ret {A} (a : A) : stage env P U (ret a).
Proof. intros s. simpl. auto. Qed.

Lemma stage_emit (e : event) : P e -> stage env P U (emit e).
Proof. intros H s. simpl. auto. Qed.

Lemma stage_throw {A} (e : error) : U e -> stage env P U (@throw A e).
Proof. intros H s. simpl. auto. Qed.

Lemma stage_fail {A} (reason : string) (err : error) :
  stage env P U (@fail env A reason err).
Proof.
  intros s. rewrite fail_run. simpl. repeat split.
  exists [], reason, err. auto.
Qed.

Lemma stage_bind {A B} (m : M A) (f : A -> M B) :
  stage env P U m -> (forall a, stage env P U (f a)) -> stage env P U (bind m f).
Proof.
  intros Hm Hf s. destruct (Hm s) as [Hdb Hres].
  destruct (res (m s)) as [o|a] eqn:E.
  - rewrite (bind_inl _ _ _ _ E). simpl. split; [exact Hdb|exact Hres].
  - rewrite (bind_inr _ _ _ _ E). simpl. rewrite Hdb.
    destruct (Hf a s) as [Hdb' Hres']. split; [exact Hdb'|].
    destruct (res (f a s)) as [[c|e]|b].
    + destruct Hres' as [-> (pre & reason & err & Ht & Hpre)].
      split; [reflexivity|].
      exists (trace (m s) ++ pre), reason, err.
      rewrite Ht, app_assoc. split; [reflexivity|].
      apply Forall_app. auto.
    + destruct Hres' as [Ht HU]. split; [|exact HU]. apply Forall_app. auto.
    + apply Forall_app. auto.
Qed.

End Stage.

(** ** The carelink fetcher *)

Lemma pre_hasProperty_missing (obj : value) (prop msg : string) :
  is_nullish (get_prop obj prop) = true ->
  pre_hasProperty obj prop msg = inl (IAE msg).
Proof.
  unfold pre_hasProperty. intros ->. now destruct (is_nullish obj).
Qed.

Lemma pre_hasProperty_present (obj : value) (prop msg : string) :
  is_nullish (get_prop obj prop) = false ->
  pre_hasProperty obj prop msg = inr (get_prop obj prop).
Proof.
  unfold pre_hasProperty. intros H. rewrite H.
  destruct obj; simpl in *; try reflexivity; discriminate.
Qed.

(** C10. The carelink fetcher throws, before any request is issued, on an
    options object that lacks [username], [password] or [daysAgo]; and when
    all three are present but [daysAgo] is falsy (such as [0]) and the session
    requests go through, the CSV request asks for the window from today back
    to 14 days ago, in general back to [daysAgo || 14] days ago. *)
Theorem carelink_fetch_validation_and_window (net : Carelink.Net) (opts : value) :
  (is_nullish (get_prop opts "username") = true \/
   is_nullish (get_prop opts "password") = true \/
   is_nullish (get_prop opts "daysAgo") = true ->
   exists e, Carelink.fetch net opts = ([], Carelink.Threw e)) /\
  (is_nullish (get_prop opts "username") = false ->
   is_nullish (get_prop opts "password") = false ->
   is_nullish (get_prop opts "daysAgo") = false ->
   Carelink.security_error net = None ->
   Carelink.login_error net = None ->
   exists security login csv,
     Carelink.fetch net opts = ([security; login; csv], Carelink.CalledBackStream) /\
     Carelink.url csv = Carelink.CARELINK_csv /\
     Carelink.form csv =
       Some (Carelink.mkForm 11 "," Carelink.Now
               (Carelink.SubtractDays (js_or (get_prop opts "daysAgo") (VNum 14))
                                      Carelink.Now)) /\
     (truthy (get_prop opts "daysAgo") = false ->
      forall today,
        option_map (Carelink.window today) (Carelink.form csv) =
        Some (Some today, Some (today - 14)))).
Proof.
  split.
  - intros H. unfold Carelink.fetch.
    destruct (is_nullish (get_prop opts "username")) eqn:Eu.
    { rewrite (pre_hasProperty_missing _ _ _ Eu). eauto. }
    rewrite (pre_hasProperty_present _ _ _ Eu).
    destruct (is_nullish (get_prop opts "password")) eqn:Ep.
    { rewrite (pre_hasProperty_missing _ _ _ Ep). eauto. }
    rewrite (pre_hasProperty_present _ _ _ Ep).
    destruct (is_nullish (get_prop opts "daysAgo")) eqn:Ed.
    { rewrite (pre_hasProperty_missing _ _ _ Ed). eauto. }
    destruct H as [H|[H|H]]; discriminate.
  - intros Eu Ep Ed Hs Hl. unfold Carelink.fetch.
    rewrite (pre_hasProperty_present _ _ _ Eu), (pre_hasProperty_present _ _ _ Ep),
      (pre_hasProperty_present _ _ _ Ed), Hs, Hl.
    do 3 eexists. split; [reflexivity|]. split; [reflexivity|].
    split; [reflexivity|].
    intros Hf today. unfold js_or. rewrite Hf. simpl.
    unfold Carelink.window. simpl. reflexivity.
Qed.

Lemma carelink_fetch_validation_and_window_witness :
  exists security login csv,
    Carelink.fetch (Carelink.mkNet None None)
      (VObj [("username", VStr "u"); ("password", VStr "p"); ("daysAgo", VNum 0)])
    = ([security; login; csv], Carelink.CalledBackStream) /\
    option_map (Carelink.window 100) (Carelink.form csv) = Some (Some 100, Some 86).
Proof.
  destruct (carelink_fetch_validation_and_window (Carelink.mkNet None None)
              (VObj [("username", VStr "u"); ("password", VStr "p");
                     ("daysAgo", VNum 0)])) as [_ H].
  destruct (H eq_refl eq_refl eq_refl eq_refl eq_refl)
    as (security & login & csv & Hf & _ & _ & Hw).
  exists security, login, csv. split; [exact Hf|]. exact (Hw eq_refl 100).
Defined.

(** ** The fetch stage *)

Ltac stage_step :=
  first [ apply stage_ret
        | apply stage_fail
        | apply stage_emit; exact I
        | apply stage_bind; [|intros ?] ].

Lemma fetch_stage (env : Env) (config : value) (k : source) :
  stage env fetch_event (thrown_at_fetch env config)
        (fetch env k (get_prop config "groupId") (filename k) (source_config config k)).
Proof.
  unfold fetch.
  destruct (is_nullish (source_config config k)) eqn:En; [apply stage_ret|].
  destruct (ingestion env (js_string (get_prop (source_config config k) "type")))
    as [a|] eqn:Ei.
  - repeat stage_step.
    destruct (antacid_fetch a (source_config config k)) eqn:Ef.
    + apply stage_throw. exists k. cbv zeta. now rewrite En, Ei.
    + apply stage_ret.
    + apply stage_ret.
  - apply stage_throw. exists k. cbv zeta. now rewrite En, Ei.
Qed.

Lemma start_task_fetch (env : Env) (config : value) (k : source) :
  start_task env config k =
  fetch env k (get_prop config "groupId") (filename k) (source_config config k).
Proof.
  destruct k; try reflexivity.
  unfold start_task, source_config, fetch. simpl source_name.
  now destruct (is_nullish (get_prop config "dexcom")).
Qed.

Lemma start_task_stage (env : Env) (config : value) (k : source) :
  stage env fetch_event (thrown_at_fetch env config) (start_task env config k).
Proof. rewrite start_task_fetch. apply fetch_stage. Qed.

Lemma parallel_cb_stage (env : Env) (U : error -> Prop) (err : option error) (r : value) :
  stage env fetch_event U (parallel_cb env err r).
Proof. destruct err; [apply stage_fail | apply stage_ret]. Qed.

Lemma fetched_stage (env : Env) (U : error -> Prop) (config : value) (k : source)
      (err : option error) (loc : value) :
  stage env fetch_event U (fetched env config k err loc).
Proof.
  destruct k; cbn [fetched]; try apply parallel_cb_stage.
  repeat stage_step.
Qed.

Lemma resume_stage (env : Env) (U : error -> Prop) (config : value) (k : source) (t : task) :
  stage env fetch_event U (resume env config k t).
Proof.
  destruct t as [|[e|ds]|err loc|err loc u|r]; cbn [resume].
  - destruct k; try apply fetched_stage. apply parallel_cb_stage.
  - apply stage_fail.
  - apply stage_bind; [apply stage_emit; exact I|intros _].
    destruct (storage_save env _ _ _). apply stage_ret.
  - apply fetched_stage.
  - apply stage_bind; [|intros _; apply parallel_cb_stage].
    destruct u; [apply stage_emit; exact I | apply stage_ret].
  - apply stage_ret.
Qed.

Lemma run_callbacks_stage (env : Env) (U : error -> Prop) (config : value)
      (order : list source) :
  forall ts, stage env fetch_event U (run_callbacks env config order ts).
Proof.
  induction order as [|k rest IH]; intros ts; cbn [run_callbacks].
  - apply stage_ret.
  - apply stage_bind; [apply resume_stage | intros t; apply IH].
Qed.

Lemma download_stage (env : Env) (config : value) :
  stage env fetch_event (thrown_at_fetch env config) (download env config).
Proof.
  unfold download.
  repeat (apply stage_bind; [apply start_task_stage | intros ?]).
  apply stage_bind; [apply run_callbacks_stage | intros ?].
  apply stage_ret.
Qed.

Lemma bind_res_inr {A B} (m : M A) (f : A -> M B) (s : store) (b : B) :
  res (bind m f s) = inr b ->
  exists a, res (m s) = inr a /\ res (f a (db (m s))) = inr b.
Proof.
  unfold bind. destruct (res (m s)) as [o|a]; cbn [res]; [discriminate|eauto].
Qed.

Lemma stage_db (env : Env) (P : event -> Prop) (U : error -> Prop) {A} (m : M A) (s : store) :
  stage env P U m -> db (m s) = s.
Proof. intros H. apply (H s). Qed.

Lemma resume_tick (env : Env) (config : value) (k : source) (s : store) :
  resume env config k AwaitTick s = mkRun [] s (inr (Settled VUndefined)).
Proof. destruct k; reflexivity. Qed.

Lemma resume_save (env : Env) (config : value) (k : source) (ds : stream) (s : store) :
  resume env config k (AwaitFetch (inr ds)) s =
  mkRun [EvStorageSave (get_prop config "groupId") (filename k) ds] s
        (inr (AwaitSave (fst (storage_save env (get_prop config "groupId") (filename k) ds))
                        (snd (storage_save env (get_prop config "groupId") (filename k) ds)))).
Proof.
  cbn [resume]. unfold bind, emit.
  destruct (storage_save env _ _ _). reflexivity.
Qed.

Lemma resume_saved_ok (env : Env) (config : value) (k : source) (loc : value) (s : store) :
  k <> dexcom ->
  resume env config k (AwaitSave None loc) s =
  mkRun [] s (inr (Settled (if is_nullish loc then loc else descriptor config k loc))).
Proof. destruct k; intros H; try reflexivity. now elim H. Qed.

Lemma resume_saved_dexcom (env : Env) (config : value) (err : option error)
      (loc : value) (s : store) :
  resume env config dexcom (AwaitSave err loc) s =
  mkRun [EvUnlink (get_prop (get_prop config "dexcom") "file")] s
        (inr (AwaitUnlink err loc
                (fs_unlink env (get_prop (get_prop config "dexcom") "file")))).
Proof. reflexivity. Qed.

Lemma parallel_cb_error (env : Env) (e : error) (r : value) (s : store) :
  parallel_cb env (Some e) r s = mkRun (fail_events env (message e) e) s (inl (Exit 255)).
Proof. unfold parallel_cb, download_failed. apply fail_run. Qed.

Lemma resume_fetch_error (env : Env) (config : value) (k : source) (e : error) (s : store) :
  resume env config k (AwaitFetch (inl e)) s =
  mkRun (fail_events env "Couldn't fetch!?" e) s (inl (Exit 255)).
Proof. cbn [resume]. apply fail_run. Qed.

Lemma resume_saved_error (env : Env) (config : value) (k : source) (e : error)
      (loc : value) (s : store) :
  k <> dexcom ->
  resume env config k (AwaitSave (Some e) loc) s =
  mkRun (fail_events env (message e) e) s (inl (Exit 255)).
Proof.
  intros Hk. destruct k; try (now elim Hk); cbn [resume fetched]; apply parallel_cb_error.
Qed.

Lemma resume_unlinked (env : Env) (config : value) (k : source) (err : option error)
      (loc : value) (u : option error) (s : store) :
  resume env config k (AwaitUnlink err loc u) s =
  mkRun (unlink_warning config u ++
         match err with
         | Some e => fail_events env (message e) e
         | None => []
         end) s
        (match err with
         | Some e => inl (Exit 255)
         | None => inr (Settled (descriptor config dexcom loc))
         end).
Proof.
  cbn [resume]. unfold bind.
  destruct u, err; cbn [emit ret res trace db unlink_warning];
    try rewrite parallel_cb_error; reflexivity.
Qed.

Lemma resume_inv (env : Env) (config : value) (k : source) (t t' : task) (s : store) :
  task_inv env config k t ->
  res (resume env config k t s) = inr t' ->
  task_inv env config k t'.
Proof.
  intros Hinv Hres.
  destruct t as [|[e|ds]|err loc|err loc u|r].
  - rewrite resume_tick in Hres. injection Hres as <-.
    cbn [task_inv] in *. unfold location_of. rewrite Hinv. split; congruence.
  - rewrite resume_fetch_error in Hres. discriminate.
  - rewrite resume_save in Hres. injection Hres as <-.
    destruct Hinv as [Hn (a & Hi & Hf)]. cbn [task_inv]. split; [exact Hn|].
    unfold saved. rewrite Hi, Hf. now destruct (storage_save env _ _ _).
  - destruct Hinv as [Hn Hs].
    assert (Hk : k = dexcom \/ k <> dexcom) by (destruct k; auto; right; discriminate).
    destruct Hk as [->|Hk].
    + rewrite resume_saved_dexcom in Hres. injection Hres as <-.
      cbn [task_inv]. auto.
    + destruct err as [e|].
      * rewrite (resume_saved_error _ _ _ _ _ _ Hk) in Hres. discriminate.
      * rewrite (resume_saved_ok _ _ _ _ _ Hk) in Hres. injection Hres as <-.
        cbn [task_inv]. split.
        -- unfold location_of. rewrite Hn, Hs. destruct k; try reflexivity. now elim Hk.
        -- intros _. now exists loc.
  - destruct Hinv as (-> & Hn & Hs). rewrite resume_unlinked in Hres.
    destruct err as [e|]; [discriminate|]. injection Hres as <-.
    cbn [task_inv]. split.
    + unfold location_of. now rewrite Hn, Hs.
    + intros _. now exists loc.
  - cbn in Hres. injection Hres as <-. exact Hinv.
Qed.

Lemma bind_res_intro {A B} (m : M A) (f : A -> M B) (s : store) (a : A) (b : B) :
  res (m s) = inr a -> res (f a (db (m s))) = inr b -> res (bind m f s) = inr b.
Proof. intros Hm Hf. rewrite (bind_inr _ _ _ _ Hm). exact Hf. Qed.

Lemma start_task_inv (env : Env) (config : value) (k : source) (t : task) (s : store) :
  res (start_task env config k s) = inr t -> task_inv env config k t.
Proof.
  rewrite start_task_fetch. unfold fetch.
  destruct (is_nullish (source_config config k)) eqn:En.
  - intros H. injection H as <-. exact En.
  - destruct (ingestion env (js_string (get_prop (source_config config k) "type")))
      as [a|] eqn:Ei; [|discriminate].
    unfold bind, emit. cbn [res trace db].
    destruct (antacid_fetch a (source_config config k)) eqn:Ef;
      cbn [throw ret res]; intros H; try discriminate; injection H as <-;
      cbn [task_inv]; (split; [exact En|]); exists a; auto.
Qed.

Lemma set_task_same (ts : tasks) (k : source) (t : task) : set_task ts k t k = t.
Proof. unfold set_task. now destruct k. Qed.

Lemma set_task_other (ts : tasks) (k k' : source) (t : task) :
  k <> k' -> set_task ts k t k' = ts k'.
Proof. unfold set_task. destruct k, k'; intros H; try reflexivity; now elim H. Qed.

Lemma run_callbacks_inv (env : Env) (config : value) (order : list source) :
  forall (ts ts' : tasks) (s : store),
    (forall k, task_inv env config k (ts k)) ->
    res (run_callbacks env config order ts s) = inr ts' ->
    forall k, task_inv env config k (ts' k).
Proof.
  induction order as [|k0 rest IH]; intros ts ts' s Hinv Hres.
  - cbn in Hres. injection Hres as <-. exact Hinv.
  - cbn [run_callbacks] in Hres.
    apply bind_res_inr in Hres. destruct Hres as (t & Ht & Hrest).
    apply (IH _ _ _) with (2 := Hrest).
    intros k. destruct (source_eq_dec k0 k) as [<-|Hne].
    + rewrite set_task_same. apply (resume_inv _ _ _ _ _ _ (Hinv k0) Ht).
    + rewrite (set_task_other _ _ _ _ Hne). apply Hinv.
Qed.

Lemma resume_rank (env : Env) (config : value) (k : source) (t t' : task) (s : store) :
  res (resume env config k t s) = inr t' -> (rank t' <= pred (rank t))%nat.
Proof.
  destruct t as [|[e|ds]|err loc|err loc u|r].
  - rewrite resume_tick. intros H. injection H as <-. cbn. lia.
  - rewrite resume_fetch_error. discriminate.
  - rewrite resume_save. intros H. injection H as <-. cbn. lia.
  - destruct k.
    1-3: destruct err as [e|];
      [ rewrite resume_saved_error by discriminate; discriminate
      | rewrite resume_saved_ok by discriminate; intros H; injection H as <-; cbn; lia ].
    rewrite resume_saved_dexcom. intros H. injection H as <-. cbn. lia.
  - rewrite resume_unlinked. destruct err; [discriminate|].
    intros H. injection H as <-. cbn. lia.
  - cbn. intros H. injection H as <-. cbn. lia.
Qed.

Lemma run_callbacks_rank (env : Env) (config : value) (order : list source) :
  forall (ts ts' : tasks) (s : store),
    res (run_callbacks env config order ts s) = inr ts' ->
    forall k, (rank (ts' k) <= rank (ts k) - count_occ source_eq_dec order k)%nat.
Proof.
  induction order as [|k0 rest IH]; intros ts ts' s Hres k.
  - cbn in Hres. injection Hres as <-. cbn. lia.
  - cbn [run_callbacks] in Hres.
    apply bind_res_inr in Hres. destruct Hres as (t & Ht & Hrest).
    specialize (IH _ _ _ Hrest k).
    apply resume_rank in Ht.
    cbn [count_occ]. destruct (source_eq_dec k0 k) as [<-|Hne].
    + rewrite set_task_same in IH. lia.
    + rewrite (set_task_other _ _ _ _ Hne) in IH. lia.
Qed.

Lemma rank_le_3 (t : task) : (rank t <= 3)%nat.
Proof. destruct t; cbn; lia. Qed.

Lemma rank_settled (t : task) : rank t = 0%nat -> t = Settled (task_result t).
Proof. destruct t; cbn; intros H; try discriminate. reflexivity. Qed.

Lemma drained_settled (env : Env) (config : value) (order : list source)
      (ts ts' : tasks) (s : store) :
  res (run_callbacks env config (order ++ drain_order) ts s) = inr ts' ->
  forall k, ts' k = Settled (task_result (ts' k)).
Proof.
  intros Hres k. apply rank_settled.
  pose proof (run_callbacks_rank _ _ _ _ _ _ Hres k) as H.
  pose proof (rank_le_3 (ts k)).
  rewrite count_occ_app in H.
  assert (count_occ source_eq_dec drain_order k = 3%nat) by (destruct k; reflexivity).
  lia.
Qed.

(** When [download] hands descriptors on, they are the expected ones and
    every configured option was fetched and stored. *)
Lemma download_returns (env : Env) (config : value) (s : store) (files : list value) :
  res (download env config s) = inr files ->
  files = locations env config /\
  forall k, is_nullish (source_config config k) = false -> fetch_succeeded env config k.
Proof.
  unfold download. intros H.
  apply bind_res_inr in H. destruct H as (t1 & H1 & H).
  apply bind_res_inr in H. destruct H as (t2 & H2 & H).
  apply bind_res_inr in H. destruct H as (t3 & H3 & H).
  apply bind_res_inr in H. destruct H as (t4 & H4 & H).
  apply bind_res_inr in H. destruct H as (ts' & Hts & H).
  cbn in H. injection H as <-.
  apply start_task_inv in H1, H2, H3, H4.
  assert (Hinv : forall k, task_inv env config k (ts' k)).
  { apply (run_callbacks_inv _ _ _ _ _ _) with (2 := Hts).
    intros k. destruct k; assumption. }
  pose proof (drained_settled _ _ _ _ _ _ Hts) as Hset.
  assert (Hloc : forall k, task_result (ts' k) = location_of env config k /\
                           (is_nullish (source_config config k) = false ->
                            fetch_succeeded env config k)).
  { intros k. specialize (Hinv k). rewrite (Hset k) in Hinv. exact Hinv. }
  split.
  - unfold locations, all_sources. cbn [map].
    now rewrite (proj1 (Hloc carelink)), (proj1 (Hloc diasend)),
      (proj1 (Hloc tconnect)), (proj1 (Hloc dexcom)).
  - intros k. apply Hloc.
Qed.

Lemma start_task_ok (env : Env) (config : value) (k : source) (s : store) :
  (is_nullish (source_config config k) = false -> fetch_succeeded env config k) ->
  exists t, res (start_task env config k s) = inr t.
Proof.
  intros Hok. rewrite start_task_fetch. unfold fetch.
  destruct (is_nullish (source_config config k)) eqn:En; [now eexists|].
  destruct (Hok eq_refl) as [loc Hs]. unfold saved in Hs.
  destruct (ingestion env (js_string (get_prop (source_config config k) "type")))
    as [a|]; [|discriminate].
  unfold bind, emit. cbn [res trace db].
  destruct (antacid_fetch a (source_config config k)); try discriminate.
  now eexists.
Qed.

Lemma resume_ok (env : Env) (config : value) (k : source) (t : task) (s : store) :
  (is_nullish (source_config config k) = false -> fetch_succeeded env config k) ->
  task_inv env config k t ->
  exists t', res (resume env config k t s) = inr t'.
Proof.
  intros Hok Hinv.
  destruct t as [|[e|ds]|err loc|err loc u|r].
  - rewrite resume_tick. now eexists.
  - destruct Hinv as [Hn (a & Hi & Hf)]. destruct (Hok Hn) as [loc Hs].
    unfold saved in Hs. rewrite Hi, Hf in Hs. discriminate.
  - rewrite resume_save. now eexists.
  - destruct Hinv as [Hn Hs]. destruct (Hok Hn) as [loc' Hs'].
    rewrite Hs in Hs'. injection Hs' as -> ->.
    destruct k.
    1-3: rewrite resume_saved_ok by discriminate; now eexists.
    rewrite resume_saved_dexcom. now eexists.
  - destruct Hinv as (-> & Hn & Hs). destruct (Hok Hn) as [loc' Hs'].
    rewrite Hs in Hs'. injection Hs' as -> ->.
    rewrite resume_unlinked. now eexists.
  - cbn. now eexists.
Qed.

Lemma run_callbacks_ok (env : Env) (config : value) (order : list source) :
  (forall k, is_nullish (source_config config k) = false -> fetch_succeeded env config k) ->
  forall (ts : tasks) (s : store),
    (forall k, task_inv env config k (ts k)) ->
    exists ts', res (run_callbacks env config order ts s) = inr ts'.
Proof.
  intros Hok. induction order as [|k0 rest IH]; intros ts s Hinv.
  - cbn. now eexists.
  - cbn [run_callbacks].
    destruct (resume_ok env config k0 (ts k0) s (Hok k0) (Hinv k0)) as [t Ht].
    assert (Hdb : db (resume env config k0 (ts k0) s) = s)
      by apply (stage_db env fetch_event no_error), resume_stage.
    destruct (IH (set_task ts k0 t) s) as [ts' Hts'].
    { intros k. destruct (source_eq_dec k0 k) as [<-|Hne].
      - rewrite set_task_same. apply (resume_inv _ _ _ _ _ _ (Hinv k0) Ht).
      - rewrite (set_task_other _ _ _ _ Hne). apply Hinv. }
    exists ts'. apply (bind_res_intro _ _ _ _ _ Ht). now rewrite Hdb.
Qed.

(** When every configured option is fetched and stored, [download] hands the
    expected descriptors on, whatever the order of the callbacks. *)
Lemma download_succeeds (env : Env) (config : value) (s : store) :
  (forall k, is_nullish (source_config config k) = false -> fetch_succeeded env config k) ->
  res (download env config s) = inr (locations env config).
Proof.
  intros Hok.
  assert (Hst : forall k, db (start_task env config k s) = s)
    by (intros k; apply (stage_db env fetch_event (thrown_at_fetch env config)),
                  start_task_stage).
  destruct (start_task_ok env config carelink s (Hok _)) as [t1 H1].
  destruct (start_task_ok env config diasend s (Hok _)) as [t2 H2].
  destruct (start_task_ok env config tconnect s (Hok _)) as [t3 H3].
  destruct (start_task_ok env config dexcom s (Hok _)) as [t4 H4].
  set (ts := fun k => match k with
                      | carelink => t1 | diasend => t2
                      | tconnect => t3 | dexcom => t4
                      end).
  destruct (run_callbacks_ok env config (fetch_order env ++ drain_order) Hok ts s)
    as [ts' Hts].
  { intros k. destruct k; cbn; now apply start_task_inv with (s := s). }
  assert (exists files, res (download env config s) = inr files) as [files Hf].
  { unfold download.
    eexists.
    apply (bind_res_intro _ _ _ _ _ H1). rewrite Hst.
    apply (bind_res_intro _ _ _ _ _ H2). rewrite Hst.
    apply (bind_res_intro _ _ _ _ _ H3). rewrite Hst.
    apply (bind_res_intro _ _ _ _ _ H4). rewrite Hst.
    apply (bind_res_intro _ _ _ _ _ Hts). reflexivity. }
  rewrite Hf. f_equal. now apply download_returns in Hf.
Qed.

(** ** The parse stage *)

Lemma parse_location_stage (env : Env) (locSpec : value) :
  stage env parse_event no_error (parse_location env locSpec).
Proof.
  unfold parse_location.
  destruct (ingestion env (js_string (get_prop locSpec "source"))).
  - repeat stage_step.
  - apply stage_ret.
Qed.

Lemma merge_step_stage (env : Env) (config : value) (t : tick) (st : merge_state) :
  stage env parse_event no_error (merge_step env config t st).
Proof.
  destruct t as [|i]; cbn [merge_step].
  - destruct (pending st) as [|locSpec rest]; [apply stage_ret|].
    apply stage_bind; [apply parse_location_stage|].
    intros [err|obs]; [apply stage_fail | apply stage_ret].
  - destruct (nth_error (inners st) i) as [[[|e more] [err|]]|];
      try apply stage_ret; try apply stage_fail;
      destruct (set_groupId config e); try apply stage_ret; apply stage_fail.
Qed.

Lemma merge_steps_stage (env : Env) (config : value) (ticks : list tick) :
  forall st, stage env parse_event no_error (merge_steps env config ticks st).
Proof.
  induction ticks as [|t rest IH]; intros st; cbn [merge_steps].
  - apply stage_ret.
  - apply stage_bind; [apply merge_step_stage | intros st'; apply IH].
Qed.

Lemma subscribe_stage (env : Env) (config : value) (files : list value) :
  stage env parse_event no_error (subscribe env config files).
Proof.
  unfold subscribe.
  repeat (apply stage_bind; [apply merge_steps_stage | intros ?]).
  apply stage_ret.
Qed.

Lemma set_groupId_tagged (config e e' : value) :
  set_groupId config e = inr e' -> tagged config e'.
Proof.
  destruct e; cbn; try discriminate.
  intros H. injection H as <-. eexists. split; [reflexivity|].
  apply get_prop_assign.
Qed.

Lemma merge_step_tagged (env : Env) (config : value) (t : tick)
      (st st' : merge_state) (s : store) :
  Forall (tagged config) (resultsArray st) ->
  res (merge_step env config t st s) = inr st' ->
  Forall (tagged config) (resultsArray st').
Proof.
  intros Htag. destruct t as [|i]; cbn [merge_step].
  - destruct (pending st) as [|locSpec rest].
    + cbn. intros H. injection H as <-. exact Htag.
    + intros H. apply bind_res_inr in H. destruct H as ([err|obs] & _ & H).
      * rewrite fail_run in H. discriminate.
      * cbn in H. injection H as <-. exact Htag.
  - destruct (nth_error (inners st) i) as [[[|e more] [err|]]|];
      try rewrite fail_run; cbn [ret res]; intros H;
      try discriminate; try (injection H as <-; exact Htag).
    + destruct (set_groupId config e) as [x|e'] eqn:Es;
        [rewrite fail_run in H; discriminate|].
      cbn in H. injection H as <-. cbn [resultsArray].
      apply Forall_app. split; [exact Htag|].
      constructor; [|constructor]. now apply set_groupId_tagged with (e := e).
    + destruct (set_groupId config e) as [x|e'] eqn:Es;
        [rewrite fail_run in H; discriminate|].
      cbn in H. injection H as <-. cbn [resultsArray].
      apply Forall_app. split; [exact Htag|].
      constructor; [|constructor]. now apply set_groupId_tagged with (e := e).
Qed.

Lemma merge_steps_tagged (env : Env) (config : value) (ticks : list tick) :
  forall (st st' : merge_state) (s : store),
    Forall (tagged config) (resultsArray st) ->
    res (merge_steps env config ticks st s) = inr st' ->
    Forall (tagged config) (resultsArray st').
Proof.
  induction ticks as [|t rest IH]; intros st st' s Htag; cbn [merge_steps].
  - cbn. intros H. injection H as <-. exact Htag.
  - intros H. apply bind_res_inr in H. destruct H as (st1 & H1 & H).
    apply (IH _ _ _) with (2 := H).
    now apply merge_step_tagged with (1 := Htag) (2 := H1).
Qed.

(** Whatever [subscribe] hands to [onCompleted] is tagged. *)
Lemma subscribe_tagged (env : Env) (config : value) (files results : list value)
      (s : store) :
  res (subscribe env config files s) = inr results ->
  Forall (tagged config) results.
Proof.
  unfold subscribe. intros H.
  apply bind_res_inr in H. destruct H as (st1 & H1 & H).
  apply bind_res_inr in H. destruct H as (st2 & H2 & H).
  apply bind_res_inr in H. destruct H as (st3 & H3 & H).
  cbn in H. injection H as <-.
  apply merge_steps_tagged with (2 := H3).
  apply merge_steps_tagged with (2 := H2).
  apply merge_steps_tagged with (2 := H1).
  constructor.
Qed.

Lemma bind_emit {B} (e : event) (f : unit -> M B) (s : store) :
  bind (emit e) f s = mkRun (e :: trace (f tt s)) (db (f tt s)) (res (f tt s)).
Proof. reflexivity. Qed.

Lemma bind_value {A B} (m : M A) (f : A -> M B) (s s' : store) (t : list event) (a : A) :
  m s = mkRun t s' (inr a) ->
  bind m f s = mkRun (t ++ trace (f a s')) (db (f a s')) (res (f a s')).
Proof. unfold bind. now intros ->. Qed.

Lemma removeData_run (env : Env) (g : value) (s : store) :
  removeData env g s =
  mkRun [EvLogInfo "Deleting all data for group[%s]" [g]; EvDeleteData g]
        (match deleteData_error env g with
         | Some _ => s
         | None => filter (fun r => negb (in_group g r)) s
         end)
        (inr (deleteData_error env g)).
Proof.
  unfold removeData, deleteData. rewrite bind_emit.
  now destruct (deleteData_error env g).
Qed.

Lemma storeData_run (env : Env) (records : list value) (s : store) :
  storeData env records s =
  mkRun [EvStoreData records]
        (match storeData_error env records with
         | Some _ => s
         | None => s ++ records
         end)
        (inr (storeData_error env records)).
Proof. unfold storeData. now destruct (storeData_error env records). Qed.

Lemma run_eta {A} (r : Run A) : r = mkRun (trace r) (db r) (res r).
Proof. now destruct r. Qed.

(** Every run of the job is one of the listed endings. *)
Lemma job_ending (env : Env) (config : value) (s : store) :
  ending env config s (job env config s).
Proof.
  unfold job.
  destruct (is_nullish (get_prop config "groupId")) eqn:Eg.
  { rewrite (pre_hasProperty_missing _ _ _ Eg). now constructor. }
  rewrite (pre_hasProperty_present _ _ _ Eg).
  unfold go. rewrite bind_emit.
  destruct (mongo_start env) as [err|] eqn:Em.
  { rewrite fail_run. now constructor. }
  destruct (download_stage env config s) as [Hdb1 Hst1].
  destruct (res (download env config s)) as [o|files] eqn:E1.
  { rewrite (bind_inl _ _ _ _ E1). cbn [trace db res]. rewrite Hdb1.
    destruct o as [c|e].
    - destruct Hst1 as [-> (t1 & reason & err & Ht & Hf)]. rewrite Ht.
      apply end_fetch_failed; [|exact Hf].
      rewrite (run_eta (download env config s)). now rewrite Ht, Hdb1, E1.
    - destruct Hst1 as [Hf HU].
      apply end_fetch_thrown; [|exact Hf|exact HU].
      rewrite (run_eta (download env config s)) at 1. now rewrite Hdb1, E1. }
  assert (Hfetched : fetched_all env config s (trace (download env config s)) files).
  { split; [|split; [exact Hst1|now apply download_returns with (s := s)]].
    rewrite (run_eta (download env config s)) at 1. now rewrite Hdb1, E1. }
  rewrite (bind_inr _ _ _ _ E1). cbn [trace db res]. rewrite Hdb1.
  rewrite (bind_value _ _ _ _ _ _ (removeData_run env _ s)).
  fold (delete_events (get_prop config "groupId")).
  destruct (deleteData_error env (get_prop config "groupId")) as [err|] eqn:Ed.
  { rewrite fail_run. cbn [trace db res].
    now apply end_delete_failed with (files := files). }
  fold (purge (get_prop config "groupId") s).
  remember (purge (get_prop config "groupId") s) as s1 eqn:Hs1.
  destruct (subscribe_stage env config files s1) as [Hdb2 Hst2].
  assert (Heta : subscribe env config files s1 =
                 mkRun (trace (subscribe env config files s1)) s1
                       (res (subscribe env config files s1))).
  { rewrite (run_eta (subscribe env config files s1)) at 1. now rewrite Hdb2. }
  destruct (res (subscribe env config files s1)) as [o|results] eqn:E2.
  { rewrite (bind_inl _ _ _ _ E2). cbn [trace db res]. rewrite Hdb2.
    destruct o as [c|e].
    - destruct Hst2 as [-> (t2 & reason & err & Ht & Hf)]. rewrite Ht in *.
      subst s1. apply end_parse_failed with (files := files); auto.
    - destruct Hst2 as [_ []]. }
  pose proof (subscribe_tagged _ _ _ _ _ E2) as Htag.
  rewrite (bind_inr _ _ _ _ E2). cbn [trace db res]. rewrite Hdb2.
  destruct results as [|r rs].
  { rewrite fail_run. cbn [trace db res]. subst s1.
    now apply end_no_results with (files := files). }
  rewrite (bind_value _ _ _ _ _ _ (storeData_run env _ s1)).
  destruct (storeData_error env (r :: rs)) as [err|] eqn:Es.
  { rewrite fail_run. cbn [trace db res]. subst s1.
    apply end_store_failed with (files := files); auto. discriminate. }
  cbn [trace db res bind emit exit app]. subst s1.
  apply (end_stored env config s _ files _ (r :: rs)); auto. discriminate.
Qed.

(** ** The job as a whole *)

Lemma fail_events_report (env : Env) (reason : string) (err : error) :
  Forall report_event (fail_events env reason err).
Proof.
  unfold fail_events. destruct (taskStorageDir env); repeat constructor.
Qed.

Lemma tagged_groupId (config r : value) :
  tagged config r -> get_prop r "_groupId" = get_prop config "groupId".
Proof. intros (fields & -> & H). cbn. now rewrite H. Qed.

(** [In e l] is impossible when [l] holds only events of a class [e] is not in. *)
Ltac not_in_class H :=
  match type of H with
  | In ?e ?l =>
      match goal with
      | HF : Forall _ l |- _ =>
          exfalso; exact (proj1 (Forall_forall _ l) HF e H)
      | _ =>
          exfalso;
          exact (proj1 (Forall_forall _ _) (fail_events_report _ _ _) e H)
      end
  end.

Ltac split_in H :=
  repeat match type of H with
         | In _ (_ ++ _) => apply in_app_or in H; destruct H as [H|H]
         | In _ (_ :: _) => destruct H as [H|H]
         | In _ [] => destruct H
         | In _ (delete_events _) => unfold delete_events in H
         | In _ (success_events _) => unfold success_events in H
         end.

(** C2. A job description without [groupId] ends the job at validation: an
    IllegalArgumentException is thrown and no call at all (no fetch, no
    delete, no store) has been issued.  This is what the stdin handler does
    as soon as the text read so far parses to such a description. *)
Theorem missing_groupId_fails_before_any_call (env : Env) (config : value) (s : store) :
  is_nullish (get_prop config "groupId") = true ->
  job env config s =
    mkRun [] s (inl (Uncaught (IAE "groupId is a required property"))) /\
  (forall e, In e (trace (job env config s)) ->
             ~ is_fetch_call e /\ ~ is_delete_call e /\ ~ is_store_call e) /\
  (forall input chunk,
      ends_with_brace (input ++ chunk) = true ->
      JSON_parse env (input ++ chunk)%string = inr config ->
      snd (on_data env (Some input) chunk) s =
        mkRun [] s (inl (Uncaught (IAE "groupId is a required property")))).
Proof.
  intros Hg.
  assert (Hjob : job env config s =
                 mkRun [] s (inl (Uncaught (IAE "groupId is a required property")))).
  { unfold job. now rewrite (pre_hasProperty_missing _ _ _ Hg). }
  split; [exact Hjob|]. split.
  - rewrite Hjob. intros e [].
  - intros input chunk Hend Hparse. unfold on_data. rewrite Hend, Hparse.
    cbn [snd]. rewrite (bind_inl _ _ _ (Uncaught (IAE "groupId is a required property")));
      now rewrite Hjob.
Qed.

Lemma stored_records_tagged (env : Env) (config : value) (s : store)
      (records : list value) :
  In (EvStoreData records) (trace (job env config s)) ->
  Forall (tagged config) records.
Proof.
  intros Hin.
  destruct (job_ending env config s)
    as [Hg|err Hm|t1 e Hd Hf HU|t1 reason err Hd Hf|t1 files err Hfa Hde
        |t1 files t2 reason err Hfa Hde Hsub Hp|t1 files t2 Hfa Hde Hsub Hp
        |t1 files t2 results err Hfa Hde Hsub Hp Hne Htag Hse
        |t1 files t2 results Hfa Hde Hsub Hp Hne Htag Hse];
    cbn [trace] in Hin;
    try (destruct Hfa as (_ & Hf & _));
    split_in Hin; try discriminate; try not_in_class Hin.
  - injection Hin as <-. exact Htag.
  - injection Hin as <-. exact Htag.
Qed.

(** C8. Every record handed to the bulk store carries the job's group
    identifier in [_groupId]. *)
Theorem stored_records_carry_groupId (env : Env) (config : value) (s : store)
        (records : list value) :
  In (EvStoreData records) (trace (job env config s)) ->
  Forall (fun r => get_prop r "_groupId" = get_prop config "groupId") records.
Proof.
  intros Hin.
  apply Forall_impl with (2 := stored_records_tagged env config s records Hin).
  intros r. apply tagged_groupId.
Qed.

Lemma persisted_purge (g : value) (s : store) : persisted g (purge g s) = [].
Proof.
  unfold persisted, purge. induction s as [|r s IH]; [reflexivity|].
  cbn [filter]. destruct (in_group g r) eqn:E; cbn [negb filter]; [exact IH|].
  now rewrite E.
Qed.

Lemma fetch_event_not_close (l : list event) :
  Forall fetch_event l -> Forall (fun e => ~ is_close_call e) l.
Proof. apply Forall_impl. intros []; cbn; tauto. Qed.

Lemma parse_event_not_close (l : list event) :
  Forall parse_event l -> Forall (fun e => ~ is_close_call e) l.
Proof. apply Forall_impl. intros []; cbn; tauto. Qed.

Lemma delete_events_not_close (g : value) :
  Forall (fun e => ~ is_close_call e) (delete_events g).
Proof. repeat constructor; cbn; tauto. Qed.

Ltac ending_cases H :=
  destruct H
    as [Hg|err Hm|t1 e Hd Hf HU|t1 reason err Hd Hf|t1 files err Hfa Hde
        |t1 files t2 reason err Hfa Hde Hsub Hp|t1 files t2 Hfa Hde Hsub Hp
        |t1 files t2 results err Hfa Hde Hsub Hp Hne Htag Hse
        |t1 files t2 results Hfa Hde Hsub Hp Hne Htag Hse];
  try (pose proof Hfa as (Hd & Hf & Hfiles & Hok)).

Ltac no_close :=
  repeat first
    [ apply Forall_app; split
    | apply Forall_cons; [cbn; tauto|]
    | apply Forall_nil
    | apply delete_events_not_close
    | apply fetch_event_not_close; assumption
    | apply parse_event_not_close; assumption ].


Lemma fetch_event_before (l : list event) :
  Forall fetch_event l -> Forall before_delete l.
Proof. apply Forall_impl. intros []; cbn; unfold before_delete; cbn; tauto. Qed.

Lemma parse_event_after (l : list event) :
  Forall parse_event l -> Forall after_delete l.
Proof. apply Forall_impl. intros []; cbn; unfold after_delete; cbn; tauto. Qed.

Lemma fail_events_after (env : Env) (reason : string) (err : error) :
  Forall after_delete (fail_events env reason err).
Proof.
  apply Forall_impl with (2 := fail_events_report env reason err).
  intros []; cbn; unfold after_delete; cbn; tauto.
Qed.

Ltac after_del :=
  repeat first
    [ apply fail_events_after
    | apply parse_event_after; assumption
    | progress unfold success_events
    | apply Forall_app; split
    | apply Forall_cons; [unfold after_delete; cbn; tauto|]
    | apply Forall_nil ].

Lemma before_delete_prefix (t1 : list event) (g : value) :
  Forall fetch_event t1 ->
  Forall before_delete
         (EvMongoStart :: t1 ++ [EvLogInfo "Deleting all data for group[%s]" [g]]).
Proof.
  intros H. apply Forall_cons; [unfold before_delete; cbn; tauto|].
  apply Forall_app. split; [now apply fetch_event_before|].
  repeat constructor; cbn; tauto.
Qed.

Lemma delete_split (t1 post : list event) (g : value) :
  EvMongoStart :: t1 ++ delete_events g ++ post =
  (EvMongoStart :: t1 ++ [EvLogInfo "Deleting all data for group[%s]" [g]]) ++
  EvDeleteData g :: post.
Proof. unfold delete_events. cbn [app]. now rewrite <- app_assoc. Qed.

Lemma store_in_post (l1 l2 : list event) (records : list value) :
  Forall (fun e => ~ is_store_call e) (l1 ++ EvStoreData records :: l2) -> False.
Proof.
  intros H. apply Forall_app in H. destruct H as [_ H].
  inversion H as [|? ? Hs _]. now apply Hs.
Qed.

(** C3. The collection is purged only after every configured option has been
    fetched and stored, and before anything is parsed: when a run calls
    [deleteData], it does so once, for the job's group; every configured
    fetch has succeeded; no parse and no store call comes before it, no
    fetch call after it.  The bulk store is a separate, later call: when the
    deletion succeeds and the run ends without reaching the store, the
    group is left with no persisted record. *)
Theorem delete_after_fetch_before_parse (env : Env) (config : value) (s : store)
        (g : value) :
  In (EvDeleteData g) (trace (job env config s)) ->
  g = get_prop config "groupId" /\
  (forall k, is_nullish (source_config config k) = false ->
             fetch_succeeded env config k) /\
  exists pre post,
    trace (job env config s) = pre ++ EvDeleteData g :: post /\
    Forall before_delete pre /\
    Forall after_delete post /\
    (deleteData_error env g = None ->
     Forall (fun e => ~ is_store_call e) post ->
     persisted g (db (job env config s)) = []).
Proof.
  intros Hin.
  ending_cases (job_ending env config s); cbn [trace db] in *.
  1-4: split_in Hin; try discriminate; not_in_class Hin.
  all: assert (Hg : g = get_prop config "groupId")
    by (split_in Hin; try discriminate; try not_in_class Hin;
        now injection Hin as <-).
  all: subst g; split; [reflexivity|]; split; [exact Hok|].
  all: rewrite delete_split; do 2 eexists; split; [reflexivity|].
  all: split; [now apply before_delete_prefix|]; split; [after_del|].
  - intros H. congruence.
  - intros _ _. apply persisted_purge.
  - intros _ _. apply persisted_purge.
  - intros _ H. now apply store_in_post in H.
  - intros _ H. unfold success_events in H. now apply store_in_post in H.
Qed.

(** ** A parse stage in which every source parses *)

Lemma merge_step_db (env : Env) (config : value) (t : tick) (st : merge_state) (s : store) :
  db (merge_step env config t st s) = s.
Proof. apply (stage_db env parse_event no_error), merge_step_stage. Qed.

Lemma merge_steps_cons (env : Env) (config : value) (t : tick) (rest : list tick)
      (st st1 st2 : merge_state) (s : store) :
  res (merge_step env config t st s) = inr st1 ->
  res (merge_steps env config rest st1 s) = inr st2 ->
  res (merge_steps env config (t :: rest) st s) = inr st2.
Proof.
  intros H1 H2. cbn [merge_steps]. apply (bind_res_intro _ _ _ _ _ H1).
  now rewrite merge_step_db.
Qed.

Lemma merge_steps_app (env : Env) (config : value) (a b : list tick) :
  forall (st st1 st2 : merge_state) (s : store),
    res (merge_steps env config a st s) = inr st1 ->
    res (merge_steps env config b st1 s) = inr st2 ->
    res (merge_steps env config (a ++ b) st s) = inr st2.
Proof.
  induction a as [|t a IH]; intros st st1 st2 s Ha Hb.
  - cbn in Ha. injection Ha as ->. exact Hb.
  - cbn [merge_steps] in Ha. apply bind_res_inr in Ha.
    destruct Ha as (stm & Hm & Ha). rewrite merge_step_db in Ha.
    cbn [app]. apply merge_steps_cons with (1 := Hm). now apply IH with (1 := Ha).
Qed.

Lemma replace_nth_split {A} (l : list A) :
  forall (i : nat) (x y : A),
    nth_error l i = Some x ->
    exists l1 l2, l = l1 ++ x :: l2 /\ replace_nth i y l = l1 ++ y :: l2 /\
                  List.length l1 = i.
Proof.
  induction l as [|a l IH]; intros [|i] x y H; cbn in H; try discriminate.
  - injection H as ->. now exists [], l.
  - destruct (IH i x y H) as (l1 & l2 & -> & Hr & Hl).
    exists (a :: l1), l2. cbn. now rewrite Hr, Hl.
Qed.

Lemma tag_object (config e : value) :
  is_object e -> set_groupId config e = inr (tag config e).
Proof. destruct e; cbn; try contradiction. reflexivity. Qed.

Lemma parse_location_ok (env : Env) (locSpec : value) (obs : observable) (s : store) :
  parsed env locSpec = Some obs ->
  res (parse_location env locSpec s) = inr (inr obs).
Proof.
  unfold parsed, parse_location.
  destruct (ingestion env (js_string (get_prop locSpec "source"))); [|discriminate].
  intros H. injection H as <-. reflexivity.
Qed.

(** One notification of a healthy subscription: nothing fails, and the
    records collected or to be collected stay the same, up to order. *)
Lemma merge_step_healthy (env : Env) (config : value) (t : tick)
      (st : merge_state) (s : store) :
  healthy env st ->
  exists st',
    res (merge_step env config t st s) = inr st' /\
    healthy env st' /\
    Permutation (outstanding env config st') (outstanding env config st).
Proof.
  intros [Hp Hi]. destruct t as [|i]; cbn [merge_step].
  - destruct (pending st) as [|locSpec rest] eqn:Ep.
    + exists st. split; [reflexivity|]. split; [|reflexivity].
      split; [now rewrite Ep|exact Hi].
    + inversion Hp as [|? ? (obs & Hobs & Hclean) Hrest]; subst.
      exists (mkMerge rest (inners st ++ [obs]) (resultsArray st)).
      split; [|split].
      * apply (bind_res_intro _ _ _ _ _ (parse_location_ok _ _ _ s Hobs)). reflexivity.
      * split; [exact Hrest|]. cbn [inners]. apply Forall_app. split; [exact Hi|].
        now constructor.
      * unfold outstanding, parsed_records. cbn [pending inners resultsArray].
        rewrite Ep. cbn [flat_map]. unfold records_of at 2. rewrite Hobs.
        rewrite flat_map_app. cbn [flat_map]. rewrite app_nil_r.
        rewrite !map_app, <- !app_assoc. reflexivity.
  - destruct (nth_error (inners st) i) as [[items fin]|] eqn:En;
      [destruct items as [|e more]|].
    + assert (Hc : clean ([], fin)).
      { apply nth_error_In in En. exact (proj1 (Forall_forall _ _) Hi _ En). }
      destruct Hc as [Hfin _]. cbn in Hfin. subst fin.
      exists st. split; [reflexivity|]. split; [now split|reflexivity].
    + assert (Hc : clean (e :: more, fin)).
      { apply nth_error_In in En. exact (proj1 (Forall_forall _ _) Hi _ En). }
      destruct Hc as [Hfin Hobj]. cbn in Hfin, Hobj.
      inversion Hobj as [|? ? He Hmore]; subst.
      rewrite (tag_object config e He).
      destruct (replace_nth_split (inners st) i _ (more, @None error) En)
        as (l1 & l2 & Hl & Hr & _).
      unfold observable in *.
      eexists. split; [reflexivity|]. split.
      * split; [exact Hp|]. cbn [inners]. rewrite Hr. rewrite Hl in Hi.
        apply Forall_app in Hi. destruct Hi as [H1 H2].
        inversion H2; subst. apply Forall_app. split; [exact H1|].
        constructor; [now split|assumption].
      * unfold outstanding. cbn [pending inners resultsArray].
        rewrite Hr, Hl, !flat_map_app. cbn [flat_map fst].
        rewrite !map_app. cbn [map app]. rewrite <- !app_assoc. cbn [app].
        apply Permutation_app_head.
        rewrite <- !app_assoc. cbn [app].
        apply Permutation_middle.
    + exists st. split; [reflexivity|]. split; [now split|reflexivity].
Qed.

Lemma merge_steps_healthy (env : Env) (config : value) (ticks : list tick) :
  forall (st : merge_state) (s : store),
    healthy env st ->
    exists st',
      res (merge_steps env config ticks st s) = inr st' /\
      healthy env st' /\
      Permutation (outstanding env config st') (outstanding env config st).
Proof.
  induction ticks as [|t rest IH]; intros st s Hh.
  - exists st. split; [reflexivity|]. split; [exact Hh|reflexivity].
  - destruct (merge_step_healthy env config t st s Hh) as (st1 & H1 & Hh1 & Hp1).
    destruct (IH st1 s Hh1) as (st2 & H2 & Hh2 & Hp2).
    exists st2. split; [now apply merge_steps_cons with (1 := H1)|].
    split; [exact Hh2|]. now rewrite Hp2.
Qed.

Lemma outer_ticks_pending (env : Env) (config : value) (n : nat) :
  forall (st st' : merge_state) (s : store),
    res (merge_steps env config (repeat OuterNext n) st s) = inr st' ->
    List.length (pending st') = (List.length (pending st) - n)%nat.
Proof.
  induction n as [|n IH]; intros st st' s H.
  - cbn in H. injection H as <-. lia.
  - cbn [repeat merge_steps] in H. apply bind_res_inr in H.
    destruct H as (st1 & H1 & H). rewrite merge_step_db in H.
    rewrite (IH _ _ _ H).
    cbn [merge_step] in H1. destruct (pending st) as [|locSpec rest] eqn:Ep.
    + cbn in H1. injection H1 as <-. rewrite Ep. cbn. lia.
    + apply bind_res_inr in H1. destruct H1 as ([err|obs] & _ & H1).
      * rewrite fail_run in H1. discriminate.
      * cbn in H1. injection H1 as <-. cbn. lia.
Qed.

Lemma replace_nth_app {A} (l1 l2 : list A) (x y : A) :
  replace_nth (List.length l1) y (l1 ++ x :: l2) = l1 ++ y :: l2.
Proof. induction l1 as [|a l1 IH]; cbn; [reflexivity|now rewrite IH]. Qed.

Lemma nth_error_middle {A} (l1 l2 : list A) (x : A) :
  nth_error (l1 ++ x :: l2) (List.length l1) = Some x.
Proof. induction l1 as [|a l1 IH]; cbn; [reflexivity|exact IH]. Qed.

(** Draining one inner observable that emits objects and completes. *)
Lemma drain_one (env : Env) (config : value) (items : list value) :
  forall (done rest : list (list value * option error)) (st : merge_state) (s : store),
    inners st = done ++ (items, None) :: rest ->
    Forall is_object items ->
    exists st',
      res (merge_steps env config
             (repeat (InnerNext (List.length done)) (S (List.length items))) st s)
        = inr st' /\
      inners st' = done ++ ([], None) :: rest /\
      pending st' = pending st /\
      resultsArray st' = resultsArray st ++ map (tag config) items.
Proof.
  induction items as [|e more IH]; intros done rest st s Hin Hobj.
  - exists st. split; [|split; [exact Hin|split; [reflexivity|]]].
    + cbn [List.length repeat merge_steps merge_step].
      unfold observable in *. rewrite Hin, nth_error_middle. reflexivity.
    + cbn. now rewrite app_nil_r.
  - inversion Hobj as [|? ? He Hmore]; subst.
    set (st1 := mkMerge (pending st) (done ++ (more, None) :: rest)
                        (resultsArray st ++ [tag config e])).
    destruct (IH done rest st1 s eq_refl Hmore) as (st' & Hres & Hi & Hp & Hr).
    exists st'. split; [|split; [exact Hi|split; [exact Hp|]]].
    + cbn [List.length repeat]. apply merge_steps_cons with (2 := Hres).
      cbn [merge_step]. unfold observable in *.
      rewrite Hin, nth_error_middle, (tag_object config e He), replace_nth_app.
      reflexivity.
    + rewrite Hr. cbn [st1 resultsArray map]. now rewrite <- app_assoc.
Qed.

Lemma drain_all (env : Env) (config : value) (obs : list (list value * option error)) :
  forall (done : list (list value * option error)) (st : merge_state) (s : store),
    inners st = done ++ obs ->
    Forall clean obs ->
    exists st',
      res (merge_steps env config (drain_inners (List.length done) obs) st s)
        = inr st' /\
      pending st' = pending st /\
      resultsArray st' = resultsArray st ++ map (tag config) (flat_map fst obs).
Proof.
  induction obs as [|[items fin] obs IH]; intros done st s Hin Hclean.
  - exists st. cbn. now rewrite app_nil_r.
  - inversion Hclean as [|? ? [Hfin Hobj] Hrest]; subst. cbn in Hfin, Hobj. subst fin.
    destruct (drain_one env config items done obs st s Hin Hobj)
      as (st1 & H1 & Hi1 & Hp1 & Hr1).
    destruct (IH (done ++ [([], None)]) st1 s) as (st2 & H2 & Hp2 & Hr2).
    { rewrite Hi1, <- app_assoc. reflexivity. }
    { exact Hrest. }
    exists st2. split; [|split].
    + cbn [drain_inners]. apply merge_steps_app with (1 := H1).
      rewrite length_app in H2. cbn [List.length] in H2.
      now rewrite Nat.add_1_r in H2.
    + congruence.
    + rewrite Hr2, Hr1. cbn [flat_map fst]. now rewrite map_app, <- app_assoc.
Qed.

(** When every descriptor parses, the subscription completes with the
    tagged records of all descriptors, in some order. *)
Lemma subscribe_succeeds (env : Env) (config : value) (files : list value) (s : store) :
  Forall (parses_ok env) files ->
  exists results,
    res (subscribe env config files s) = inr results /\
    Permutation results (map (tag config) (parsed_records env files)).
Proof.
  intros Hfiles. unfold subscribe.
  assert (Hdb : forall ticks st, db (merge_steps env config ticks st s) = s)
    by (intros; apply (stage_db env parse_event no_error), merge_steps_stage).
  destruct (merge_steps_healthy env config (parse_order env) (mkMerge files [] []) s)
    as (st1 & H1 & Hh1 & Hp1).
  { split; [exact Hfiles|constructor]. }
  destruct (merge_steps_healthy env config
              (repeat OuterNext (List.length (pending st1))) st1 s Hh1)
    as (st2 & H2 & Hh2 & Hp2).
  pose proof (outer_ticks_pending _ _ _ _ _ _ H2) as Hlen.
  rewrite Nat.sub_diag in Hlen. apply length_zero_iff_nil in Hlen.
  destruct (drain_all env config (inners st2) [] st2 s eq_refl (proj2 Hh2))
    as (st3 & H3 & Hp3 & Hr3).
  exists (resultsArray st3). split.
  - apply (bind_res_intro _ _ _ _ _ H1). rewrite Hdb.
    apply (bind_res_intro _ _ _ _ _ H2). rewrite Hdb.
    apply (bind_res_intro _ _ _ _ _ H3). reflexivity.
  - rewrite Hr3.
    assert (Ho2 : outstanding env config st2 =
                  resultsArray st2 ++ map (tag config) (flat_map fst (inners st2))).
    { unfold outstanding. rewrite Hlen. cbn. now rewrite app_nil_r. }
    rewrite <- Ho2, Hp2, Hp1. unfold outstanding. cbn. reflexivity.
Qed.

Lemma subscribe_nil (env : Env) (config : value) (s : store) :
  subscribe env config [] s = mkRun [] s (inr []).
Proof.
  assert (H : forall ticks, merge_steps env config ticks (mkMerge [] [] []) s =
                            mkRun [] s (inr (mkMerge [] [] []))).
  { induction ticks as [|t rest IH]; [reflexivity|].
    cbn [merge_steps].
    assert (Ht : merge_step env config t (mkMerge [] [] []) s =
                 mkRun [] s (inr (mkMerge [] [] []))).
    { destruct t as [|i]; cbn [merge_step pending inners]; [reflexivity|].
      now destruct i. }
    rewrite (bind_value _ _ _ _ _ _ Ht), IH. reflexivity. }
  unfold subscribe.
  rewrite (bind_value _ _ _ _ _ _ (H _)). cbn [pending List.length repeat].
  rewrite (bind_value _ _ _ _ _ _ (H _)). cbn [inners drain_inners].
  rewrite (bind_value _ _ _ _ _ _ (H _)). reflexivity.
Qed.

Lemma locations_none (env : Env) (config : value) :
  (forall k, is_nullish (source_config config k) = true) ->
  locations env config = [].
Proof.
  intros H. unfold locations, all_sources, location_of. cbn [map].
  now rewrite !H.
Qed.

Lemma no_store_in (l : list event) (P : event -> Prop) :
  (forall e, P e -> ~ is_store_call e) -> Forall P l ->
  Forall (fun e => ~ is_store_call e) l.
Proof. intros H. apply Forall_impl. exact H. Qed.

Ltac no_store :=
  repeat first
    [ apply (no_store_in _ report_event);
        [intros []; cbn; tauto | apply fail_events_report]
    | apply (no_store_in _ fetch_event); [intros []; cbn; tauto | assumption]
    | apply (no_store_in _ parse_event); [intros []; cbn; tauto | assumption]
    | progress unfold delete_events
    | apply Forall_app; split
    | apply Forall_cons; [cbn; tauto|]
    | apply Forall_nil ].

Lemma run_callbacks_idle (env : Env) (config : value) (order : list source) :
  forall (ts : tasks) (s : store),
    (forall k, rank (ts k) <= 1 /\ forall err loc u, ts k <> AwaitUnlink err loc u)%nat ->
    trace (run_callbacks env config order ts s) = [] /\
    exists ts', res (run_callbacks env config order ts s) = inr ts'.
Proof.
  induction order as [|k0 rest IH]; intros ts s Hidle; cbn [run_callbacks].
  - split; [reflexivity|now eexists].
  - assert (Hstep : resume env config k0 (ts k0) s =
                    mkRun [] s (inr (Settled (task_result (ts k0))))).
    { destruct (Hidle k0) as [Hr Hu].
      destruct (ts k0) as [|ans|err loc|err loc u|r]; cbn in Hr; try lia.
      - apply resume_tick.
      - now elim (Hu err loc u).
      - reflexivity. }
    rewrite (bind_value _ _ _ _ _ _ Hstep). cbn [trace res app].
    apply IH. intros k. unfold set_task.
    destruct (source_eqb k0 k); [|apply Hidle].
    split; [cbn; lia|discriminate].
Qed.

Lemma download_none (env : Env) (config : value) (s : store) :
  (forall k, is_nullish (source_config config k) = true) ->
  download env config s = mkRun [] s (inr []).
Proof.
  intros Hnone.
  assert (Hstart : forall k, start_task env config k s = mkRun [] s (inr AwaitTick)).
  { intros k. rewrite start_task_fetch. unfold fetch. now rewrite Hnone. }
  assert (Hres : res (download env config s) = inr []).
  { rewrite download_succeeds; [now rewrite (locations_none _ _ Hnone)|].
    intros k Hk. rewrite Hnone in Hk. discriminate. }
  rewrite (run_eta (download env config s)).
  rewrite Hres, (stage_db _ _ _ _ s (download_stage env config)). f_equal.
  unfold download. rewrite !(bind_value _ _ _ _ _ _ (Hstart _)). cbn [app trace].
  match goal with |- trace (bind (run_callbacks env config ?o ?ts) _ s) = [] =>
    destruct (run_callbacks_idle env config o ts s) as [Ht [ts' Hts]] end.
  { intros k. destruct k; cbn; split; try lia; discriminate. }
  rewrite (bind_inr _ _ _ _ Hts). cbn [trace ret]. now rewrite Ht.
Qed.

(** C4. When the job description names a group, the database starts and the
    deletion succeeds, a run whose fetch stage goes through and whose merged
    collection comes out empty fails with the reason ["No results"] and
    exit code 255; it makes no store call, and the group stays purged.  In
    particular, with no source configured the descriptor list is empty, so is
    the merged collection, and the job fails in this way, whatever the
    environment's orders. *)
Theorem no_results_fails (env : Env) (config : value) (s : store) :
  is_nullish (get_prop config "groupId") = false ->
  mongo_start env = None ->
  deleteData_error env (get_prop config "groupId") = None ->
  (forall files,
      res (download env config s) = inr files ->
      res (subscribe env config files (purge (get_prop config "groupId") s)) = inr [] ->
      res (job env config s) = inl (Exit 255) /\
      (exists pre,
          trace (job env config s) =
            pre ++ fail_events env "No results" (mkError "Error" "No results") /\
          In (EvDeleteData (get_prop config "groupId")) pre) /\
      Forall (fun e => ~ is_store_call e) (trace (job env config s)) /\
      db (job env config s) = purge (get_prop config "groupId") s /\
      persisted (get_prop config "groupId") (db (job env config s)) = []) /\
  ((forall k, is_nullish (source_config config k) = true) ->
   res (download env config s) = inr [] /\
   res (subscribe env config [] (purge (get_prop config "groupId") s)) = inr [] /\
   job env config s =
     mkRun (EvMongoStart :: delete_events (get_prop config "groupId") ++
            fail_events env "No results" (mkError "Error" "No results"))
           (purge (get_prop config "groupId") s) (inl (Exit 255))).
Proof.
  intros Hgid Hstart Hdel.
  assert (Hempty : forall files t1' t2',
             download env config s = mkRun t1' s (inr files) ->
             subscribe env config files (purge (get_prop config "groupId") s) =
               mkRun t2' (purge (get_prop config "groupId") s) (inr []) ->
             job env config s =
               mkRun (EvMongoStart :: t1' ++ delete_events (get_prop config "groupId") ++
                      t2' ++ fail_events env "No results" (mkError "Error" "No results"))
                     (purge (get_prop config "groupId") s) (inl (Exit 255))).
  { intros files0 t10 t20 Hdl Hsub0.
    ending_cases (job_ending env config s); congruence. }
  split.
  - intros files0 Hdl Hsub0.
    destruct (download_stage env config s) as [Hdb1 Hst1]. rewrite Hdl in Hst1.
    destruct (subscribe_stage env config files0 (purge (get_prop config "groupId") s))
      as [Hdb2 Hst2]. rewrite Hsub0 in Hst2.
    destruct (download env config s) as [t1' d1 r1] eqn:Ed1.
    destruct (subscribe env config files0 (purge (get_prop config "groupId") s))
      as [t2' d2 r2] eqn:Ed2.
    cbn [trace db res] in *. subst d1 r1 d2 r2.
    rewrite (Hempty files0 t1' t2' eq_refl Ed2).
    cbn [res trace db]. split; [reflexivity|]. split; [|split; [|split]].
    + exists (EvMongoStart :: t1' ++ delete_events (get_prop config "groupId") ++ t2').
      split; [cbn [app]; now rewrite <- !app_assoc|].
      right. apply in_or_app. right. apply in_or_app. left. cbn. auto.
    + no_store.
    + reflexivity.
    + apply persisted_purge.
  - intros Hnone.
    rewrite (download_none env config s Hnone), subscribe_nil.
    split; [reflexivity|]. split; [reflexivity|].
    apply (Hempty [] [] []); [now apply download_none | apply subscribe_nil].
Qed.

(** ** A successful job *)






(** ** The dexcom staging file *)

Lemma Forall_trace_bind {A B} (P : event -> Prop) (m : M A) (f : A -> M B) (s : store) :
  Forall P (trace (m s)) ->
  (forall a, res (m s) = inr a -> Forall P (trace (f a (db (m s))))) ->
  Forall P (trace (bind m f s)).
Proof.
  intros Hm Hf. destruct (res (m s)) as [o|a] eqn:E.
  - now rewrite (bind_inl _ _ _ _ E).
  - rewrite (bind_inr _ _ _ _ E). cbn [trace]. apply Forall_app. auto.
Qed.



Lemma fail_events_no_unlink (env : Env) (reason : string) (err : error) :
  Forall (fun e => ~ is_unlink_call e) (fail_events env reason err).
Proof.
  apply Forall_impl with (2 := fail_events_report env reason err).
  intros []; cbn; tauto.
Qed.

Lemma start_task_no_unlink (env : Env) (config : value) (k : source) (s : store) :
  Forall (fun e => ~ is_unlink_call e) (trace (start_task env config k s)).
Proof.
  rewrite start_task_fetch. unfold fetch.
  destruct (is_nullish (source_config config k)); [constructor|].
  destruct (ingestion env _) as [a|]; [|constructor].
  unfold bind, emit. cbn [res trace db].
  destruct (antacid_fetch a (source_config config k)); cbn;
    repeat constructor; cbn; tauto.
Qed.

Lemma resume_no_unlink (env : Env) (config : value) (k : source) (t : task) (s : store) :
  (k = dexcom -> forall err loc, t <> AwaitSave err loc) ->
  Forall (fun e => ~ is_unlink_call e) (trace (resume env config k t s)).
Proof.
  intros Hk. destruct t as [|[e|ds]|err loc|err loc u|r].
  - rewrite resume_tick. constructor.
  - rewrite resume_fetch_error. apply fail_events_no_unlink.
  - rewrite resume_save. repeat constructor. cbn. tauto.
  - assert (Hne : k <> dexcom) by (intros ->; now apply (Hk eq_refl err loc)).
    destruct err as [e|].
    + rewrite (resume_saved_error _ _ _ _ _ _ Hne). apply fail_events_no_unlink.
    + rewrite (resume_saved_ok _ _ _ _ _ Hne). constructor.
  - rewrite resume_unlinked. cbn [trace]. apply Forall_app. split.
    + destruct u; repeat constructor. cbn. tauto.
    + destruct err; [apply fail_events_no_unlink|constructor].
  - constructor.
Qed.

Lemma run_callbacks_fetch_error (env : Env) (config : value) (e : error)
      (order : list source) :
  forall (ts : tasks) (s : store),
    ts dexcom = AwaitFetch (inl e) ->
    Forall (fun ev => ~ is_unlink_call ev) (trace (run_callbacks env config order ts s)).
Proof.
  induction order as [|k0 rest IH]; intros ts s Hts; cbn [run_callbacks].
  - constructor.
  - apply Forall_trace_bind.
    + apply resume_no_unlink. intros -> err loc. rewrite Hts. discriminate.
    + intros t Ht. apply IH.
      destruct (source_eq_dec k0 dexcom) as [->|Hne].
      * rewrite Hts, resume_fetch_error in Ht. discriminate.
      * now rewrite (set_task_other _ _ _ _ Hne).
Qed.

(** When the dexcom Fetcher calls back with an error, the fetch stage never
    reaches [fs.unlink]. *)
Lemma download_fetch_error_no_unlink (env : Env) (config : value) (s : store)
      (a : antacid) (e : error) :
  is_nullish (get_prop config "dexcom") = false ->
  ingestion env (js_string (get_prop (get_prop config "dexcom") "type")) = Some a ->
  antacid_fetch a (get_prop config "dexcom") = FetchError e ->
  Forall (fun ev => ~ is_unlink_call ev) (trace (download env config s)).
Proof.
  intros Hn Hi Hf. unfold download.
  repeat (apply Forall_trace_bind; [apply start_task_no_unlink | intros ? ?]).
  apply Forall_trace_bind; [|intros; constructor].
  apply run_callbacks_fetch_error with (e := e).
  match goal with Hst : res (start_task env config dexcom _) = inr ?t |- _ =>
    revert Hst end.
  cbn [start_task]. rewrite Hn. unfold fetch. rewrite Hn, Hi.
  unfold bind, emit. cbn [res trace db]. rewrite Hf. cbn.
  intros Hst. now injection Hst as <-.
Qed.






Lemma quiet_fail_events (env : Env) (reason : string) (err : error) :
  quiet (fail_events env reason err) = fail_events env reason err.
Proof. unfold fail_events. now destruct (taskStorageDir env). Qed.







Lemma no_unlink_in (l : list event) (P : event -> Prop) :
  (forall e, P e -> ~ is_unlink_call e) -> Forall P l ->
  Forall (fun e => ~ is_unlink_call e) l.
Proof. intros H. apply Forall_impl. exact H. Qed.

Ltac no_unlink :=
  repeat first
    [ assumption
    | apply fail_events_no_unlink
    | apply (no_unlink_in _ parse_event); [intros []; cbn; tauto | assumption]
    | progress unfold delete_events, success_events
    | apply Forall_app; split
    | apply Forall_cons; [cbn; tauto|]
    | apply Forall_nil ].

(** When the dexcom Fetcher calls back with an error, the run never calls
    [fs.unlink] and does not exit 0. *)
Lemma dexcom_fetch_error_skips_unlink (env : Env) (config : value) (s : store)
      (a0 : antacid) (e0 : error) :
  is_nullish (get_prop config "dexcom") = false ->
  ingestion env (js_string (get_prop (get_prop config "dexcom") "type")) = Some a0 ->
  antacid_fetch a0 (get_prop config "dexcom") = FetchError e0 ->
  Forall (fun ev => ~ is_unlink_call ev) (trace (job env config s)) /\
  res (job env config s) <> inl (Exit 0).
Proof.
  intros Hn Hi0 Hf0.
  pose proof (download_fetch_error_no_unlink env config s a0 e0 Hn Hi0 Hf0) as Hdl.
  ending_cases (job_ending env config s); cbn [res trace];
    try (rewrite Hd in Hdl; cbn [trace] in Hdl).
  1-8: split; [no_unlink | discriminate].
  exfalso. destruct (Hok dexcom Hn) as [loc Hs].
  unfold saved, source_config in Hs. cbn [source_name] in Hs.
  rewrite Hi0, Hf0 in Hs. discriminate.
Qed.


(** ** The descriptors handed on, and options that are not configured *)

Lemma fail_events_unconcerned (env : Env) (k : source) (reason : string) (err : error) :
  Forall (fun e => ~ concerns k e) (fail_events env reason err).
Proof.
  apply Forall_impl with (2 := fail_events_report env reason err).
  intros []; cbn; tauto.
Qed.

Lemma filename_inj (k k' : source) : filename k' = filename k -> k' = k.
Proof. destruct k, k'; cbn; intros H; try reflexivity; discriminate. Qed.

Lemma start_task_unconcerned (env : Env) (config : value) (k k' : source) (s : store) :
  is_nullish (source_config config k) = true ->
  Forall (fun e => ~ concerns k e) (trace (start_task env config k' s)).
Proof.
  intros Hk. rewrite start_task_fetch. unfold fetch.
  destruct (is_nullish (source_config config k')) eqn:En; [constructor|].
  assert (Hne : k' <> k) by (intros ->; congruence).
  destruct (ingestion env _) as [a|]; [|constructor].
  unfold bind, emit. cbn [res trace db].
  destruct (antacid_fetch a (source_config config k')); cbn;
    repeat constructor; cbn; tauto.
Qed.

Lemma resume_unconcerned (env : Env) (config : value) (k k' : source) (t : task)
      (s : store) :
  is_nullish (source_config config k) = true ->
  task_inv env config k' t ->
  Forall (fun e => ~ concerns k e) (trace (resume env config k' t s)).
Proof.
  intros Hk Hinv. destruct t as [|[e|ds]|err loc|err loc u|r].
  - rewrite resume_tick. constructor.
  - rewrite resume_fetch_error. apply fail_events_unconcerned.
  - rewrite resume_save. destruct Hinv as [Hn _].
    repeat constructor. cbn. intros H. apply filename_inj in H. congruence.
  - destruct (source_eq_dec k' dexcom) as [->|Hne].
    + rewrite resume_saved_dexcom. repeat constructor. cbn. tauto.
    + destruct err as [e|].
      * rewrite (resume_saved_error _ _ _ _ _ _ Hne). apply fail_events_unconcerned.
      * rewrite (resume_saved_ok _ _ _ _ _ Hne). constructor.
  - rewrite resume_unlinked. cbn [trace]. apply Forall_app. split.
    + destruct u; repeat constructor. cbn. tauto.
    + destruct err; [apply fail_events_unconcerned|constructor].
  - constructor.
Qed.

Lemma run_callbacks_unconcerned (env : Env) (config : value) (k : source)
      (order : list source) :
  is_nullish (source_config config k) = true ->
  forall (ts : tasks) (s : store),
    (forall k', task_inv env config k' (ts k')) ->
    Forall (fun e => ~ concerns k e) (trace (run_callbacks env config order ts s)).
Proof.
  intros Hk. induction order as [|k0 rest IH]; intros ts s Hinv; cbn [run_callbacks].
  - constructor.
  - apply Forall_trace_bind; [now apply resume_unconcerned|].
    intros t Ht. apply IH. intros k'.
    destruct (source_eq_dec k0 k') as [<-|Hne].
    + rewrite set_task_same. apply (resume_inv _ _ _ _ _ _ (Hinv k0) Ht).
    + rewrite (set_task_other _ _ _ _ Hne). apply Hinv.
Qed.

Lemma download_unconcerned (env : Env) (config : value) (k : source) (s : store) :
  is_nullish (source_config config k) = true ->
  Forall (fun e => ~ concerns k e) (trace (download env config s)).
Proof.
  intros Hk. unfold download.
  assert (Hst : forall k', db (start_task env config k' s) = s)
    by (intros k'; apply (stage_db env fetch_event (thrown_at_fetch env config)),
                   start_task_stage).
  apply Forall_trace_bind; [now apply start_task_unconcerned|intros t1 H1].
  rewrite Hst.
  apply Forall_trace_bind; [now apply start_task_unconcerned|intros t2 H2].
  rewrite Hst.
  apply Forall_trace_bind; [now apply start_task_unconcerned|intros t3 H3].
  rewrite Hst.
  apply Forall_trace_bind; [now apply start_task_unconcerned|intros t4 H4].
  rewrite Hst.
  apply Forall_trace_bind; [|intros; constructor].
  apply run_callbacks_unconcerned; [exact Hk|].
  intros k'. destruct k'; now apply start_task_inv with (s := s).
Qed.

Lemma merge_steps_unconcerned (env : Env) (config : value) (k : source)
      (ticks : list tick) :
  forall (st : merge_state) (s : store),
    Forall (fun d => has_source k d = false) (pending st) ->
    Forall (fun e => ~ concerns k e) (trace (merge_steps env config ticks st s)) /\
    forall st', res (merge_steps env config ticks st s) = inr st' ->
                Forall (fun d => has_source k d = false) (pending st').
Proof.
  induction ticks as [|t rest IH]; intros st s Hp; cbn [merge_steps].
  - split; [constructor|]. cbn. intros st' H. now injection H as <-.
  - assert (Hstep : Forall (fun e => ~ concerns k e)
                           (trace (merge_step env config t st s)) /\
                    forall st1, res (merge_step env config t st s) = inr st1 ->
                                Forall (fun d => has_source k d = false) (pending st1)).
    { destruct t as [|i]; cbn [merge_step].
      - destruct (pending st) as [|locSpec more] eqn:Ep.
        + split; [constructor|]. cbn. intros st1 H. injection H as <-. now rewrite Ep.
        + inversion Hp as [|? ? Hd Hmore]; subst.
          unfold parse_location.
          destruct (ingestion env (js_string (get_prop locSpec "source"))) as [a|].
          * split.
            -- cbn. repeat constructor; cbn; try tauto.
               intros Hsrc. unfold has_source in Hd. rewrite Hsrc in Hd.
               cbn in Hd. now rewrite String.eqb_refl in Hd.
            -- cbn. intros st1 H. now injection H as <-.
          * split.
            -- unfold bind, ret. cbn [res trace db]. rewrite fail_run. cbn [trace app].
               apply fail_events_unconcerned.
            -- unfold bind, ret. cbn [res trace db]. rewrite fail_run. discriminate.
      - destruct (nth_error (inners st) i) as [[items fin]|];
          [destruct items as [|e more]; [destruct fin|]|].
        + rewrite fail_run. split; [apply fail_events_unconcerned|discriminate].
        + split; [constructor|]. cbn. intros st1 H. now injection H as <-.
        + destruct (set_groupId config e).
          * rewrite fail_run. split; [apply fail_events_unconcerned|discriminate].
          * split; [constructor|]. cbn. intros st1 H. now injection H as <-.
        + split; [constructor|]. cbn. intros st1 H. now injection H as <-. }
    destruct Hstep as [Ht Hnext]. split.
    + apply Forall_trace_bind; [exact Ht|].
      intros st1 H1. rewrite merge_step_db. apply IH, Hnext, H1.
    + intros st' H. apply bind_res_inr in H. destruct H as (st1 & H1 & H).
      rewrite merge_step_db in H. exact (proj2 (IH st1 s (Hnext st1 H1)) st' H).
Qed.

Lemma subscribe_unconcerned (env : Env) (config : value) (k : source)
      (files : list value) (s : store) :
  Forall (fun d => has_source k d = false) files ->
  Forall (fun e => ~ concerns k e) (trace (subscribe env config files s)).
Proof.
  intros Hf. unfold subscribe.
  assert (Hdb : forall ticks st, db (merge_steps env config ticks st s) = s)
    by (intros; apply (stage_db env parse_event no_error), merge_steps_stage).
  destruct (merge_steps_unconcerned env config k (parse_order env)
              (mkMerge files [] []) s Hf) as [Ht1 Hn1].
  apply Forall_trace_bind; [exact Ht1|intros st1 H1]. rewrite Hdb.
  destruct (merge_steps_unconcerned env config k
              (repeat OuterNext (List.length (pending st1))) st1 s (Hn1 _ H1))
    as [Ht2 Hn2].
  apply Forall_trace_bind; [exact Ht2|intros st2 H2]. rewrite Hdb.
  destruct (merge_steps_unconcerned env config k
              (drain_inners 0 (inners st2)) st2 s (Hn2 _ H2)) as [Ht3 _].
  apply Forall_trace_bind; [exact Ht3|intros; constructor].
Qed.

(** The value the task of option [k] hands to async is nullish or a
    descriptor of [k]. *)
Lemma location_of_cases (env : Env) (config : value) (k : source) :
  is_nullish (location_of env config k) = true \/
  exists loc, is_nullish (source_config config k) = false /\
              saved env config k = Some (None, loc) /\
              location_of env config k = descriptor config k loc.
Proof.
  unfold location_of.
  destruct (is_nullish (source_config config k)) eqn:En; [now left|].
  destruct (saved env config k) as [[[e|] loc]|]; try (now left).
  destruct k.
  1-3: destruct (is_nullish loc) eqn:El; [now left | right; now exists loc].
  right. now exists loc.
Qed.

Lemma has_source_descriptor (config : value) (k k' : source) (loc : value) :
  has_source k (descriptor config k' loc) = source_eqb k' k.
Proof. destruct k, k'; reflexivity. Qed.

Lemma descriptor_not_nullish (config : value) (k : source) (loc : value) :
  is_nullish (descriptor config k loc) = false.
Proof. now destruct k. Qed.

(** What [download] hands on holds, for each option, its descriptor when
    the option is configured and a location came back, and nothing else. *)
Lemma locations_by_source (env : Env) (config : value) (k : source) :
  filter (has_source k) (locations env config) =
  if is_nullish (location_of env config k) then []
  else [location_of env config k].
Proof.
  unfold locations, all_sources. cbn [map].
  destruct (location_of_cases env config carelink) as [H1|(l1 & _ & _ & H1)],
           (location_of_cases env config diasend) as [H2|(l2 & _ & _ & H2)],
           (location_of_cases env config tconnect) as [H3|(l3 & _ & _ & H3)],
           (location_of_cases env config dexcom) as [H4|(l4 & _ & _ & H4)];
    destruct k; cbn [filter];
    rewrite ?H1, ?H2, ?H3, ?H4, ?descriptor_not_nullish; cbn [negb filter];
    rewrite ?has_source_descriptor; cbn [source_eqb filter];
    rewrite ?H1, ?H2, ?H3, ?H4, ?descriptor_not_nullish; reflexivity.
Qed.

(** An option that is not configured is left alone: no Fetcher is called
    for it, no blob is saved under its name, no descriptor of it is handed
    on, and its parser is not called. *)
Lemma absent_source_untouched (env : Env) (config : value) (s : store) (k : source) :
  is_nullish (source_config config k) = true ->
  filter (has_source k) (locations env config) = [] /\
  Forall (fun e => ~ concerns k e) (trace (job env config s)).
Proof.
  intros Hk.
  assert (Hloc : filter (has_source k) (locations env config) = []).
  { rewrite locations_by_source. unfold location_of. now rewrite Hk. }
  split; [exact Hloc|].
  assert (Hnone : Forall (fun d => has_source k d = false) (locations env config)).
  { apply Forall_forall. intros d Hd.
    destruct (has_source k d) eqn:E; [|reflexivity].
    assert (Hin : In d (filter (has_source k) (locations env config)))
      by (apply filter_In; auto).
    rewrite Hloc in Hin. destruct Hin. }
  pose proof (download_unconcerned env config k s Hk) as Hdl.
  pose proof (subscribe_unconcerned env config k (locations env config)
                (purge (get_prop config "groupId") s) Hnone) as Hsb.
  ending_cases (job_ending env config s); cbn [trace];
    try (rewrite Hd in Hdl; cbn [trace] in Hdl);
    try (subst files; rewrite Hsub in Hsb; cbn [trace] in Hsb);
    repeat first
      [ assumption
      | apply fail_events_unconcerned
      | progress unfold delete_events, success_events
      | apply Forall_app; split
      | apply Forall_cons; [cbn; tauto|]
      | apply Forall_nil ].
Qed.

(** C5.  What the code does about a descriptor's [config]: of the
    descriptors [download] hands on, the one of carelink, diasend or dexcom
    carries the option's configuration, and the one of tconnect carries no
    [config] at all, so that the tconnect parser is called with
    [undefined]. *)
Theorem descriptor_config (env : Env) (config : value) (s : store)
        (files : list value) (d : value) (k : source) :
  res (download env config s) = inr files ->
  In d files ->
  has_source k d = true ->
  is_nullish (source_config config k) = false /\
  exists loc,
    saved env config k = Some (None, loc) /\
    get_prop d "source" = VStr (source_name k) /\
    get_prop d "location" = loc /\
    get_prop d "config" =
      match k with
      | tconnect => VUndefined
      | _ => source_config config k
      end.
Proof.
  intros Hdl Hin Hsrc.
  apply download_returns in Hdl. destruct Hdl as [-> _].
  assert (Hd : In d (filter (has_source k) (locations env config)))
    by (apply filter_In; auto).
  rewrite locations_by_source in Hd.
  destruct (location_of_cases env config k) as [Hnull|(loc & Hn & Hs & Hloc)].
  - rewrite Hnull in Hd. destruct Hd.
  - rewrite Hloc, descriptor_not_nullish in Hd. destruct Hd as [<-|[]].
    split; [exact Hn|]. exists loc. split; [exact Hs|].
    destruct k; repeat split.
Qed.

(** ** Sample runs *)

Example sample_run :
  job healthy_env carelink_job sample_store =
  mkRun
    [EvMongoStart;
     EvLogInfo "Fetching %s data for user[%s]" [VStr "carelink"; VStr "u"];
     EvAntacidFetch carelink (VStr "carelink") (get_prop carelink_job "carelink");
     EvStorageSave (VStr "g1") "carelink.csv" "payload";
     EvLogInfo "Deleting all data for group[%s]" [VStr "g1"];
     EvDeleteData (VStr "g1");
     EvStorageGet (VStr "carelink.csv");
     EvAntacidParse (VStr "carelink") "carelink.csv" (get_prop carelink_job "carelink");
     EvStoreData (map (tag carelink_job) three_records);
     EvLogInfo "Persisted[%s] events to db." [VNum 3];
     EvMongoClose]
    (VObj [("type", VStr "cbg"); ("_groupId", VStr "g9")]
       :: map (tag carelink_job) three_records)
    (inl (Exit 0)).
Proof. vm_compute. reflexivity. Qed.

Example empty_run :
  job healthy_env empty_job sample_store =
  mkRun
    [EvMongoStart;
     EvLogInfo "Deleting all data for group[%s]" [VStr "g2"];
     EvDeleteData (VStr "g2");
     EvMongoClose;
     EvLogWarn (mkError "Error" "No results")
               "Failing due to error, with reason[%s]." [VStr "No results"];
     EvWriteFileSync "/tmp/task" "error.json" (VObj [("reason", VStr "No results")])]
    sample_store
    (inl (Exit 255)).
Proof. vm_compute. reflexivity. Qed.


Lemma missing_groupId_fails_before_any_call_witness :
  is_nullish (get_prop no_group_job "groupId") = true /\
  job healthy_env no_group_job sample_store =
    mkRun [] sample_store (inl (Uncaught (IAE "groupId is a required property"))).
Proof.
  split; [reflexivity|].
  apply (missing_groupId_fails_before_any_call
           healthy_env no_group_job sample_store eq_refl).
Defined.


Lemma delete_after_fetch_before_parse_witness :
  In (EvDeleteData (VStr "g1"))
     (trace (job healthy_env carelink_job sample_store)) /\
  fetch_succeeded healthy_env carelink_job carelink /\
  exists pre post,
    trace (job healthy_env carelink_job sample_store) =
      pre ++ EvDeleteData (VStr "g1") :: post /\
    Forall before_delete pre /\ Forall after_delete post.
Proof.
  assert (Hin : In (EvDeleteData (VStr "g1"))
                   (trace (job healthy_env carelink_job sample_store))).
  { rewrite sample_run. cbn. tauto. }
  split; [exact Hin|].
  destruct (delete_after_fetch_before_parse
              healthy_env carelink_job sample_store (VStr "g1") Hin)
    as (_ & Hok & pre & post & Ht & Hpre & Hpost & _).
  split; [apply Hok; reflexivity|].
  exists pre, post. auto.
Defined.

Lemma no_results_fails_witness :
  res (job healthy_env empty_job sample_store) = inl (Exit 255) /\
  Forall (fun e => ~ is_store_call e) (trace (job healthy_env empty_job sample_store)) /\
  persisted (VStr "g2") (db (job healthy_env empty_job sample_store)) = [].
Proof.
  destruct (no_results_fails healthy_env empty_job sample_store
              eq_refl eq_refl eq_refl) as [Hfail Hnone].
  destruct Hnone as (Hdl & Hsub & _); [intros k; destruct k; reflexivity|].
  destruct (Hfail [] Hdl Hsub) as (Hres & _ & Hstore & _ & Hpers).
  auto.
Defined.

Example dexcom_save_error_run :
  job save_down_env dexcom_job sample_store =
  mkRun
    [EvMongoStart;
     EvLogInfo "Fetching %s data for user[%s]" [VStr "dexcom"; VUndefined];
     EvAntacidFetch dexcom (VStr "dexcom") (get_prop dexcom_job "dexcom");
     EvStorageSave (VStr "g3") "dexcom.csv" "payload";
     EvUnlink (VStr "/tmp/upload.csv");
     EvMongoClose;
     EvLogWarn (mkError "Error" "disk full")
               "Failing due to error, with reason[%s]." [VStr "disk full"];
     EvWriteFileSync "/tmp/task" "error.json" (VObj [("reason", VStr "disk full")])]
    sample_store
    (inl (Exit 255)).
Proof. vm_compute. reflexivity. Qed.


Lemma stored_records_carry_groupId_witness :
  In (EvStoreData (map (tag carelink_job) three_records))
     (trace (job healthy_env carelink_job sample_store)) /\
  Forall (fun r => get_prop r "_groupId" = VStr "g1")
         (map (tag carelink_job) three_records).
Proof.
  assert (Hin : In (EvStoreData (map (tag carelink_job) three_records))
                   (trace (job healthy_env carelink_job sample_store))).
  { rewrite sample_run. cbn [trace In]. tauto. }
  split; [exact Hin|].
  exact (stored_records_carry_groupId
           healthy_env carelink_job sample_store _ Hin).
Defined.



Lemma descriptor_config_witness :
  res (download healthy_env tconnect_job sample_store) =
    inr [VObj [("source", VStr "tconnect"); ("location", VStr "tconnect.xml")]] /\
  get_prop tconnect_job "tconnect" =
    VObj [("type", VStr "tconnect"); ("username", VStr "u")] /\
  get_prop (VObj [("source", VStr "tconnect"); ("location", VStr "tconnect.xml")])
           "config" = VUndefined /\
  In (EvAntacidParse (VStr "tconnect") "tconnect.xml" VUndefined)
     (trace (job healthy_env tconnect_job sample_store)).
Proof.
  assert (Hdl : res (download healthy_env tconnect_job sample_store) =
                inr [VObj [("source", VStr "tconnect");
                           ("location", VStr "tconnect.xml")]])
    by (vm_compute; reflexivity).
  split; [exact Hdl|]. split; [reflexivity|]. split.
  - destruct (descriptor_config healthy_env tconnect_job sample_store _ _ tconnect
                Hdl (or_introl eq_refl) eq_refl) as (_ & loc & _ & _ & _ & Hc).
    exact Hc.
  - assert (H : trace (job healthy_env tconnect_job sample_store) = _)
      by (vm_compute; reflexivity).
    rewrite H. cbn. tauto.
Defined.

(** * Further properties *)

(** ** The parser calls *)

Lemma trace_bind {A B} (m : M A) (f : A -> M B) (s : store) :
  trace (bind m f s) =
  trace (m s) ++ match res (m s) with
                 | inr a => trace (f a (db (m s)))
                 | inl _ => []
                 end.
Proof.
  unfold bind. destruct (res (m s)); cbn [trace]; [now rewrite app_nil_r|reflexivity].
Qed.

Lemma res_bind {A B} (m : M A) (f : A -> M B) (s : store) :
  res (bind m f s) =
  match res (m s) with
  | inr a => res (f a (db (m s)))
  | inl o => inl o
  end.
Proof. unfold bind. now destruct (res (m s)). Qed.

Lemma parse_calls_fail (env : Env) (reason : string) (err : error) :
  parse_calls (fail_events env reason err) = [].
Proof. unfold fail_events. now destruct (taskStorageDir env). Qed.

Lemma parse_calls_app (a b : list event) :
  parse_calls (a ++ b) = parse_calls a ++ parse_calls b.
Proof. apply filter_app. Qed.

(** One notification: the parser calls made so far, followed by those still
    to come, are those of the descriptors that were pending. *)
Lemma merge_step_parse_calls (env : Env) (config : value) (t : tick)
      (st : merge_state) (s : store) :
  match res (merge_step env config t st s) with
  | inr st' =>
      parse_calls (trace (merge_step env config t st s)) ++
      map (parse_call env) (pending st') = map (parse_call env) (pending st)
  | inl _ => parse_calls (trace (merge_step env config t st s)) = []
  end.
Proof.
  destruct t as [|i]; cbn [merge_step].
  - destruct (pending st) as [|locSpec rest] eqn:Ep; [cbn; now rewrite Ep|].
    unfold parse_location.
    destruct (ingestion env (js_string (get_prop locSpec "source"))) as [a|].
    + cbn. reflexivity.
    + cbn. destruct (taskStorageDir env); reflexivity.
  - destruct (nth_error (inners st) i) as [[[|e more] [err|]]|]; cbn;
      try reflexivity; try (destruct (taskStorageDir env); reflexivity);
      destruct (set_groupId config e); cbn; try reflexivity;
      destruct (taskStorageDir env); reflexivity.
Qed.

Lemma merge_steps_parse_calls (env : Env) (config : value) (ticks : list tick) :
  forall (st : merge_state) (s : store),
    match res (merge_steps env config ticks st s) with
    | inr st' =>
        parse_calls (trace (merge_steps env config ticks st s)) ++
        map (parse_call env) (pending st') = map (parse_call env) (pending st)
    | inl _ =>
        exists rest,
          map (parse_call env) (pending st) =
          parse_calls (trace (merge_steps env config ticks st s)) ++ rest
    end.
Proof.
  induction ticks as [|t rest IH]; intros st s; cbn [merge_steps].
  - cbn. reflexivity.
  - rewrite res_bind, trace_bind, parse_calls_app.
    pose proof (merge_step_parse_calls env config t st s) as H1.
    destruct (res (merge_step env config t st s)) as [o|st1].
    + rewrite H1. cbn. eauto.
    + rewrite merge_step_db. specialize (IH st1 s).
      destruct (res (merge_steps env config rest st1 s)) as [o|st2].
      * destruct IH as [r Hr]. rewrite <- H1, Hr.
        exists r. now rewrite !app_assoc.
      * rewrite <- H1, <- IH. now rewrite !app_assoc.
Qed.

Lemma subscribe_parse_calls (env : Env) (config : value) (files : list value) (s : store) :
  match res (subscribe env config files s) with
  | inr _ => parse_calls (trace (subscribe env config files s)) =
             map (parse_call env) files
  | inl _ => exists rest,
      map (parse_call env) files =
      parse_calls (trace (subscribe env config files s)) ++ rest
  end.
Proof.
  unfold subscribe.
  assert (Hdb : forall ticks st, db (merge_steps env config ticks st s) = s)
    by (intros; apply (stage_db env parse_event no_error), merge_steps_stage).
  rewrite !res_bind, !trace_bind, !parse_calls_app, !Hdb.
  pose proof (merge_steps_parse_calls env config (parse_order env)
                (mkMerge files [] []) s) as H1.
  destruct (res (merge_steps env config (parse_order env) (mkMerge files [] []) s))
    as [o|st1]; [rewrite app_nil_r; exact H1|].
  cbn [pending] in H1.
  rewrite !res_bind, !trace_bind, !parse_calls_app, !Hdb.
  pose proof (merge_steps_parse_calls env config
                (repeat OuterNext (List.length (pending st1))) st1 s) as H2.
  pose proof (outer_ticks_pending env config (List.length (pending st1)) st1) as Hlen.
  destruct (res (merge_steps env config (repeat OuterNext (List.length (pending st1)))
                             st1 s)) as [o|st2] eqn:E2.
  { destruct H2 as [r Hr]. exists r. rewrite <- H1, Hr, app_nil_r.
    now rewrite app_assoc. }
  specialize (Hlen st2 s E2). rewrite Nat.sub_diag in Hlen.
  apply length_zero_iff_nil in Hlen. rewrite Hlen in H2. cbn [map] in H2.
  rewrite app_nil_r in H2.
  rewrite !res_bind, !trace_bind, !parse_calls_app, !Hdb.
  pose proof (merge_steps_parse_calls env config (drain_inners 0 (inners st2)) st2 s)
    as H3.
  rewrite Hlen in H3. cbn [map] in H3.
  destruct (res (merge_steps env config (drain_inners 0 (inners st2)) st2 s))
    as [o|st3].
  - destruct H3 as [r Hr]. symmetry in Hr. apply app_eq_nil in Hr.
    destruct Hr as [Hr _]. rewrite Hr, ?app_nil_r. exists [].
    rewrite <- H1, H2, ?app_nil_r. reflexivity.
  - apply app_eq_nil in H3. destruct H3 as [H3 _]. cbn [res trace ret].
    rewrite H3. cbn [parse_calls filter]. rewrite <- H1, H2, ?app_nil_r. reflexivity.
Qed.

Lemma parse_calls_fetch (l : list event) : Forall fetch_event l -> parse_calls l = [].
Proof.
  induction 1 as [|e l He _ IH]; [reflexivity|].
  cbn. destruct e; cbn in *; try contradiction; exact IH.
Qed.

Lemma locations_with_orders (env : Env) (fo : list source) (po : list tick)
      (config : value) :
  locations (with_orders env fo po) config = locations env config.
Proof. reflexivity. Qed.

Lemma parse_calls_cons_other (e : event) (l : list event) :
  is_antacid_parse e = false -> parse_calls (e :: l) = parse_calls l.
Proof. intros H. cbn. now rewrite H. Qed.

(** X1. The parsers are called once per descriptor and in the order of the
    descriptors, which is the fixed order carelink, diasend, tconnect,
    dexcom of [download]'s tasks, whatever the order in which the fetches
    completed and the records arrive: the parser calls of any run are an
    initial part of the calls for the descriptors handed on, and all of
    them once the run reaches the bulk store. *)
Theorem parsers_called_in_descriptor_order (env : Env) (config : value) (s : store) :
  (exists rest,
      map (parse_call env) (locations env config) =
      parse_calls (trace (job env config s)) ++ rest) /\
  (forall records,
      In (EvStoreData records) (trace (job env config s)) ->
      parse_calls (trace (job env config s)) =
      map (parse_call env) (locations env config)) /\
  (forall fo po,
      map (parse_call (with_orders env fo po)) (locations (with_orders env fo po) config) =
      map (parse_call env) (locations env config)).
Proof.
  split; [|split; [|reflexivity]].
  - ending_cases (job_ending env config s); cbn [trace];
      try (pose proof (subscribe_parse_calls env config files
                         (purge (get_prop config "groupId") s)) as Hpc;
           rewrite Hsub in Hpc; cbn [res trace] in Hpc; subst files);
      rewrite ?parse_calls_cons_other by reflexivity;
      unfold delete_events, success_events;
      rewrite ?parse_calls_app, ?parse_calls_fail, ?(parse_calls_fetch _ Hf),
        ?(parse_calls_fetch _ Hd);
      cbn [parse_calls filter is_antacid_parse app];
      rewrite ?parse_calls_fail, ?app_nil_r; eauto.
    + destruct Hpc as [r Hr]. exists r. rewrite Hr, parse_calls_app, parse_calls_fail.
      now rewrite app_nil_r.
    + exists []. now rewrite app_nil_r.
    + exists []. now rewrite app_nil_r.
    + exists []. now rewrite app_nil_r.
  - intros records Hin.
    ending_cases (job_ending env config s); cbn [trace] in *;
      try (pose proof (subscribe_parse_calls env config files
                         (purge (get_prop config "groupId") s)) as Hpc;
           rewrite Hsub in Hpc; cbn [res trace] in Hpc; subst files);
      try (split_in Hin; try discriminate; not_in_class Hin);
      rewrite ?parse_calls_cons_other by reflexivity;
      unfold delete_events, success_events;
      rewrite ?parse_calls_app, ?parse_calls_fail, ?(parse_calls_fetch _ Hf);
      cbn [parse_calls filter is_antacid_parse app];
      rewrite ?parse_calls_fail, ?app_nil_r; exact Hpc.
Qed.

Lemma parsers_called_in_descriptor_order_witness :
  In (EvStoreData (map (tag carelink_dexcom_job) (three_records ++ three_records)))
     (trace (job (with_orders healthy_env [dexcom; dexcom; dexcom; carelink] [])
                 carelink_dexcom_job sample_store)) /\
  parse_calls (trace (job (with_orders healthy_env [dexcom; dexcom; dexcom; carelink] [])
                          carelink_dexcom_job sample_store)) =
  [EvAntacidParse (VStr "carelink") "carelink.csv"
                  (get_prop carelink_dexcom_job "carelink");
   EvAntacidParse (VStr "dexcom") "dexcom.csv"
                  (get_prop carelink_dexcom_job "dexcom")].
Proof.
  assert (Hin : In (EvStoreData (map (tag carelink_dexcom_job)
                                     (three_records ++ three_records)))
                   (trace (job (with_orders healthy_env
                                            [dexcom; dexcom; dexcom; carelink] [])
                               carelink_dexcom_job sample_store))).
  { vm_compute. repeat (first [left; reflexivity | right]). }
  split; [exact Hin|].
  rewrite (proj1 (proj2 (parsers_called_in_descriptor_order _ _ _)) _ Hin).
  reflexivity.
Defined.

(** ** The calls of the fetch stage *)

Lemma fetch_calls_app (k : source) (a b : list event) :
  fetch_calls k (a ++ b) = fetch_calls k a ++ fetch_calls k b.
Proof. apply filter_app. Qed.

Lemma fetch_calls_fail (env : Env) (k : source) (reason : string) (err : error) :
  fetch_calls k (fail_events env reason err) = [].
Proof. unfold fail_events. now destruct (taskStorageDir env). Qed.

Lemma source_eqb_refl (k : source) : source_eqb k k = true.
Proof. now destruct k. Qed.

Lemma source_eqb_neq (k k' : source) : k' <> k -> source_eqb k' k = false.
Proof. destruct k, k'; intros H; try reflexivity; now elim H. Qed.

Lemma filename_eqb_neq (k k' : source) :
  k' <> k -> String.eqb (filename k') (filename k) = false.
Proof.
  intros H. apply String.eqb_neq. intros E. now apply filename_inj in E.
Qed.

Lemma start_task_calls_other (env : Env) (config : value) (k k' : source) (s : store) :
  k' <> k -> fetch_calls k (trace (start_task env config k' s)) = [].
Proof.
  intros Hk. rewrite start_task_fetch. unfold fetch.
  destruct (is_nullish (source_config config k')); [reflexivity|].
  destruct (ingestion env (js_string (get_prop (source_config config k') "type")))
    as [a|]; [|reflexivity].
  rewrite !bind_emit. cbn [trace fetch_calls filter fetch_call_of].
  rewrite (source_eqb_neq _ _ Hk).
  destruct (antacid_fetch a (source_config config k')); reflexivity.
Qed.

Lemma start_task_calls_same (env : Env) (config : value) (k : source) (s : store) :
  match res (start_task env config k s) with
  | inr t =>
      fetch_calls k (trace (start_task env config k s)) ++ calls_to_come config k t =
      expected_fetch_calls env config k
  | inl _ =>
      fetch_calls k (trace (start_task env config k s)) =
      expected_fetch_calls env config k
  end.
Proof.
  rewrite start_task_fetch. unfold fetch, expected_fetch_calls.
  destruct (is_nullish (source_config config k)); [reflexivity|].
  destruct (ingestion env (js_string (get_prop (source_config config k) "type")))
    as [a|]; [|reflexivity].
  rewrite !bind_emit. cbn [trace res fetch_calls filter fetch_call_of].
  rewrite source_eqb_refl.
  destruct (antacid_fetch a (source_config config k)); reflexivity.
Qed.

Lemma resume_calls_other (env : Env) (config : value) (k k' : source) (t : task)
      (s : store) :
  k' <> k -> fetch_calls k (trace (resume env config k' t s)) = [].
Proof.
  intros Hk. destruct t as [|[e|ds]|err loc|err loc u|r].
  - now rewrite resume_tick.
  - rewrite resume_fetch_error. cbn [trace res]. apply fetch_calls_fail.
  - rewrite resume_save. cbn. now rewrite (filename_eqb_neq _ _ Hk).
  - destruct (source_eq_dec k' dexcom) as [->|Hd].
    + rewrite resume_saved_dexcom. cbn.
      destruct k; try reflexivity. now elim Hk.
    + destruct err as [e|].
      * rewrite (resume_saved_error _ _ _ _ _ _ Hd). cbn [trace res].
        apply fetch_calls_fail.
      * now rewrite (resume_saved_ok _ _ _ _ _ Hd).
  - rewrite resume_unlinked. cbn [trace res]. rewrite fetch_calls_app.
    destruct u, err; cbn [unlink_warning fetch_calls filter fetch_call_of app];
      rewrite ?fetch_calls_fail; reflexivity.
  - reflexivity.
Qed.

Lemma resume_calls_same (env : Env) (config : value) (k : source) (t : task)
      (s : store) :
  match res (resume env config k t s) with
  | inr t' =>
      fetch_calls k (trace (resume env config k t s)) ++ calls_to_come config k t' =
      calls_to_come config k t
  | inl _ => fetch_calls k (trace (resume env config k t s)) = []
  end.
Proof.
  destruct t as [|[e|ds]|err loc|err loc u|r].
  - now rewrite resume_tick.
  - rewrite resume_fetch_error. cbn [trace res]. apply fetch_calls_fail.
  - rewrite resume_save. cbn. now rewrite String.eqb_refl.
  - destruct (source_eq_dec k dexcom) as [->|Hd].
    + rewrite resume_saved_dexcom. reflexivity.
    + destruct err as [e|].
      * rewrite (resume_saved_error _ _ _ _ _ _ Hd). cbn [trace res].
        apply fetch_calls_fail.
      * rewrite (resume_saved_ok _ _ _ _ _ Hd). destruct k; try reflexivity.
        now elim Hd.
  - rewrite resume_unlinked. cbn [trace res]. rewrite fetch_calls_app.
    destruct u, err; cbn [unlink_warning fetch_calls filter fetch_call_of app];
      rewrite ?fetch_calls_fail; reflexivity.
  - reflexivity.
Qed.

Lemma run_callbacks_calls (env : Env) (config : value) (k : source)
      (order : list source) :
  forall (ts : tasks) (s : store),
    match res (run_callbacks env config order ts s) with
    | inr ts' =>
        fetch_calls k (trace (run_callbacks env config order ts s)) ++
        calls_to_come config k (ts' k) = calls_to_come config k (ts k)
    | inl _ =>
        exists rest,
          calls_to_come config k (ts k) =
          fetch_calls k (trace (run_callbacks env config order ts s)) ++ rest
    end.
Proof.
  induction order as [|k' order IH]; intros ts s; cbn [run_callbacks].
  - reflexivity.
  - rewrite res_bind, trace_bind, fetch_calls_app.
    rewrite (stage_db _ _ _ _ s (resume_stage env no_error config k' (ts k'))).
    destruct (source_eq_dec k' k) as [->|Hk].
    + pose proof (resume_calls_same env config k (ts k) s) as H1.
      destruct (res (resume env config k (ts k) s)) as [o|t'].
      * rewrite H1. cbn. eauto.
      * specialize (IH (set_task ts k t') s). rewrite set_task_same in IH.
        destruct (res (run_callbacks env config order (set_task ts k t') s)).
        -- destruct IH as [r Hr]. exists r. rewrite <- H1, Hr. now rewrite app_assoc.
        -- rewrite <- H1, <- IH. now rewrite app_assoc.
    + rewrite (resume_calls_other env config k k' (ts k') s Hk). cbn [app].
      destruct (res (resume env config k' (ts k') s)) as [o|t'].
      * cbn. eauto.
      * specialize (IH (set_task ts k' t') s).
        rewrite (set_task_other _ _ _ _ Hk) in IH. exact IH.
Qed.

Lemma accounted_bind (k : source) (full : list event) {A B} (m : M A) (f : A -> M B)
      (s : store) (rest1 : A -> list event) (rest2 : B -> list event) :
  db (m s) = s ->
  accounted k full (m s) rest1 ->
  (forall a, res (m s) = inr a -> accounted k (rest1 a) (f a s) rest2) ->
  accounted k full (bind m f s) rest2.
Proof.
  unfold accounted. intros Hdb H1 H2.
  rewrite res_bind, trace_bind, fetch_calls_app, Hdb.
  destruct (res (m s)) as [o|a].
  - destruct H1 as [more H1]. exists more. now rewrite app_nil_r.
  - specialize (H2 a eq_refl). destruct (res (f a s)) as [o|b].
    + destruct H2 as [more H2]. exists more. rewrite <- H1, H2. now rewrite app_assoc.
    + rewrite <- H1, <- H2. now rewrite app_assoc.
Qed.

Lemma start_task_accounted (env : Env) (config : value) (k : source) (s : store) :
  accounted k (expected_fetch_calls env config k) (start_task env config k s)
            (calls_to_come config k).
Proof.
  unfold accounted. pose proof (start_task_calls_same env config k s) as H.
  destruct (res (start_task env config k s)); [|exact H].
  exists []. now rewrite app_nil_r.
Qed.

Lemma start_task_accounted_other (env : Env) (config : value) (k k' : source)
      (full : list event) (s : store) :
  k' <> k ->
  accounted k full (start_task env config k' s) (fun _ => full).
Proof.
  intros Hk. unfold accounted. rewrite (start_task_calls_other _ _ _ _ s Hk).
  destruct (res (start_task env config k' s)); [|reflexivity].
  now exists full.
Qed.

Lemma run_callbacks_accounted (env : Env) (config : value) (k : source)
      (order : list source) (ts : tasks) (s : store) :
  accounted k (calls_to_come config k (ts k)) (run_callbacks env config order ts s)
            (fun ts' => calls_to_come config k (ts' k)).
Proof. apply run_callbacks_calls. Qed.

Lemma download_calls (env : Env) (config : value) (k : source) (s : store) :
  accounted k (expected_fetch_calls env config k) (download env config s)
            (fun _ => []).
Proof.
  assert (Hdb : forall k', db (start_task env config k' s) = s)
    by (intros; apply (stage_db _ _ _ _ s (start_task_stage env config k'))).
  unfold download.
  destruct k.
  all: repeat
         match goal with
         | |- accounted ?k _ (bind (start_task _ _ ?k) _ _) _ =>
             eapply accounted_bind;
             [apply Hdb | apply start_task_accounted | intros ? _]
         | |- accounted ?k _ (bind (start_task _ _ ?k') _ _) _ =>
             eapply accounted_bind;
             [apply Hdb | apply start_task_accounted_other; discriminate
             | cbv beta; intros ? _]
         end.
  all: match goal with
       | |- accounted ?k ?full (bind (run_callbacks _ _ ?o ?ts) _ _) _ =>
           apply (accounted_bind k full _ _ s
                    (fun ts' : tasks => calls_to_come config k (ts' k)));
           [ apply (stage_db _ _ _ _ s (run_callbacks_stage env no_error config o ts))
           | exact (run_callbacks_accounted env config k o ts s)
           | ]
       end.
  all: intros ts' Hts; cbv beta;
    rewrite (drained_settled _ _ _ _ _ _ Hts); reflexivity.
Qed.

Lemma fetch_calls_parse (k : source) (l : list event) :
  Forall parse_event l -> fetch_calls k l = [].
Proof.
  induction 1 as [|e l He _ IH]; [reflexivity|].
  cbn. destruct e; cbn in *; try contradiction; exact IH.
Qed.

Lemma fetch_calls_cons_other (k : source) (e : event) (l : list event) :
  fetch_call_of k e = false -> fetch_calls k (e :: l) = fetch_calls k l.
Proof. intros H. cbn. now rewrite H. Qed.

Lemma fetch_calls_nil (k : source) : fetch_calls k [] = [].
Proof. reflexivity. Qed.

Ltac calls_norm :=
  unfold delete_events, success_events;
  repeat first
    [ rewrite fetch_calls_app
    | rewrite fetch_calls_fail
    | rewrite fetch_calls_nil
    | rewrite fetch_calls_cons_other by reflexivity
    | match goal with
      | H : Forall parse_event ?l |- _ => rewrite (fetch_calls_parse _ l H)
      end
    | rewrite app_nil_r
    | progress cbn [app] ].

(** X2. For each of the four options the fetch stage makes at most three
    calls, each at most once and in this order: the option's Fetcher, with
    the option's own configuration; the blob save of the delivered stream,
    under the job's group and the option's fixed file name; and, for dexcom
    only, the removal of the staging file.  The calls of any run are a first
    part of this sequence, and the whole of it once the run reaches the
    deletion of the group's data. *)
Theorem fetch_stage_calls (env : Env) (config : value) (s : store) (k : source) :
  (exists rest,
      expected_fetch_calls env config k =
      fetch_calls k (trace (job env config s)) ++ rest) /\
  (forall g,
      In (EvDeleteData g) (trace (job env config s)) ->
      fetch_calls k (trace (job env config s)) = expected_fetch_calls env config k).
Proof.
  pose proof (download_calls env config k s) as Hdl. unfold accounted in Hdl.
  split.
  - ending_cases (job_ending env config s); cbn [trace];
      try (rewrite Hd in Hdl; cbn [res trace] in Hdl; rewrite ?app_nil_r in Hdl);
      calls_norm;
      try (exists []; rewrite app_nil_r; now symmetry).
    + now exists (expected_fetch_calls env config k).
    + now exists (expected_fetch_calls env config k).
    + exact Hdl.
    + rewrite fetch_calls_app, fetch_calls_fail, app_nil_r in Hdl. exact Hdl.
  - intros g Hin.
    ending_cases (job_ending env config s); cbn [trace] in *;
      try (split_in Hin; try discriminate; not_in_class Hin);
      rewrite Hd in Hdl; cbn [res trace] in Hdl; rewrite app_nil_r in Hdl;
      calls_norm; exact Hdl.
Qed.

Lemma fetch_stage_calls_witness :
  In (EvDeleteData (VStr "g3")) (trace (job healthy_env dexcom_job sample_store)) /\
  fetch_calls dexcom (trace (job healthy_env dexcom_job sample_store)) =
  [EvAntacidFetch dexcom (VStr "dexcom") (get_prop dexcom_job "dexcom");
   EvStorageSave (VStr "g3") "dexcom.csv" "payload";
   EvUnlink (VStr "/tmp/upload.csv")].
Proof.
  assert (Hin : In (EvDeleteData (VStr "g3"))
                   (trace (job healthy_env dexcom_job sample_store))).
  { vm_compute. repeat (first [left; reflexivity | right]). }
  split; [exact Hin|].
  rewrite (proj2 (fetch_stage_calls healthy_env dexcom_job sample_store dexcom) _ Hin).
  reflexivity.
Defined.

(** ** A parse stage that completes *)

Lemma parse_location_inv (env : Env) (locSpec : value) (obs : observable) (s : store) :
  res (parse_location env locSpec s) = inr (inr obs) ->
  parsed env locSpec = Some obs.
Proof.
  unfold parsed, parse_location.
  destruct (ingestion env (js_string (get_prop locSpec "source"))); cbn.
  - intros H. now injection H as <-.
  - discriminate.
Qed.

Lemma set_groupId_object (config e e' : value) :
  set_groupId config e = inr e' -> is_object e.
Proof. destruct e; cbn; try discriminate. trivial. Qed.

(** What a notification that goes through tells about the state before it. *)
Lemma merge_step_healthy_back (env : Env) (config : value) (t : tick)
      (st st' : merge_state) (s : store) :
  res (merge_step env config t st s) = inr st' ->
  healthy env st' -> healthy env st.
Proof.
  destruct t as [|i]; cbn [merge_step].
  - destruct (pending st) as [|locSpec rest] eqn:Ep.
    + cbn. intros H. now injection H as <-.
    + intros H. apply bind_res_inr in H. destruct H as ([err|obs] & Hp & H).
      * rewrite fail_run in H. discriminate.
      * cbn in H. injection H as <-. intros [Hpe Hin]. cbn [pending inners] in *.
        apply Forall_app in Hin. destruct Hin as [Hin Hobs].
        inversion Hobs as [|? ? Hc _]; subst.
        split; [|exact Hin]. rewrite Ep. constructor; [|exact Hpe].
        exists obs. split; [|exact Hc]. now apply parse_location_inv with (s := s).
  - destruct (nth_error (inners st) i) as [[[|e more] fin]|] eqn:En.
    + destruct fin as [err|].
      * rewrite fail_run. discriminate.
      * cbn. intros H. now injection H as <-.
    + destruct (set_groupId config e) as [err|e'] eqn:Ee.
      * rewrite fail_run. discriminate.
      * cbn. intros H. injection H as <-. intros [Hpe Hin].
        cbn [pending inners] in *.
        destruct (replace_nth_split (inners st) i _ (more, fin) En)
          as (l1 & l2 & Hl & Hr & _).
        unfold observable in *. rewrite Hr in Hin. split; [exact Hpe|].
        rewrite Hl. apply Forall_app in Hin. destruct Hin as [H1 H2].
        inversion H2 as [|? ? [Hfin Hobj] H3]; subst. apply Forall_app.
        split; [exact H1|]. constructor; [|exact H3]. cbn in *.
        split; [exact Hfin|]. constructor; [|exact Hobj].
        now apply set_groupId_object with (1 := Ee).
    + cbn. intros H. now injection H as <-.
Qed.

Lemma merge_steps_healthy_back (env : Env) (config : value) (ticks : list tick) :
  forall (st st' : merge_state) (s : store),
    res (merge_steps env config ticks st s) = inr st' ->
    healthy env st' -> healthy env st.
Proof.
  induction ticks as [|t rest IH]; intros st st' s H Hh.
  - cbn in H. now injection H as ->.
  - cbn [merge_steps] in H. apply bind_res_inr in H.
    destruct H as (st1 & H1 & H). rewrite merge_step_db in H.
    apply merge_step_healthy_back with (1 := H1). now apply IH with (1 := H).
Qed.

Lemma merge_steps_app_inv (env : Env) (config : value) (a b : list tick) :
  forall (st st2 : merge_state) (s : store),
    res (merge_steps env config (a ++ b) st s) = inr st2 ->
    exists st1, res (merge_steps env config a st s) = inr st1 /\
                res (merge_steps env config b st1 s) = inr st2.
Proof.
  induction a as [|t a IH]; intros st st2 s H.
  - exists st. split; [reflexivity|exact H].
  - cbn [app merge_steps] in H. apply bind_res_inr in H.
    destruct H as (stm & Hm & H). rewrite merge_step_db in H.
    destruct (IH _ _ _ H) as (st1 & Ha & Hb).
    exists st1. split; [|exact Hb]. now apply merge_steps_cons with (1 := Hm).
Qed.

(** An inner observable that has been run to its end has completed. *)
Lemma drain_one_back (env : Env) (config : value) (items : list value) :
  forall (done rest : list (list value * option error)) (fin : option error)
         (st st' : merge_state) (s : store),
    inners st = done ++ (items, fin) :: rest ->
    res (merge_steps env config
           (repeat (InnerNext (List.length done)) (S (List.length items))) st s)
      = inr st' ->
    inners st' = done ++ ([], None) :: rest /\ pending st' = pending st.
Proof.
  induction items as [|e more IH]; intros done rest fin st st' s Hin H.
  - cbn [List.length repeat merge_steps] in H. apply bind_res_inr in H.
    destruct H as (st1 & H1 & H). cbn in H. injection H as <-.
    cbn [merge_step] in H1. unfold observable in *.
    rewrite Hin, nth_error_middle in H1. destruct fin as [err|].
    + rewrite fail_run in H1. discriminate.
    + cbn in H1. injection H1 as <-. now split.
  - cbn [List.length repeat merge_steps] in H. apply bind_res_inr in H.
    destruct H as (st1 & H1 & H). rewrite merge_step_db in H.
    cbn [merge_step] in H1. unfold observable in *.
    rewrite Hin, nth_error_middle in H1.
    destruct (set_groupId config e) as [err|e'].
    + rewrite fail_run in H1. discriminate.
    + cbn in H1. injection H1 as <-. rewrite replace_nth_app in H.
      exact (IH done rest fin (mkMerge _ _ _) st' s eq_refl H).
Qed.

Lemma drain_all_back (env : Env) (config : value) (obs : list (list value * option error)) :
  forall (done : list (list value * option error)) (st st' : merge_state) (s : store),
    inners st = done ++ obs ->
    res (merge_steps env config (drain_inners (List.length done) obs) st s) = inr st' ->
    inners st' = done ++ map (fun _ => ([], None)) obs /\ pending st' = pending st.
Proof.
  induction obs as [|[items fin] obs IH]; intros done st st' s Hin H.
  - cbn in H. injection H as <-. cbn. now rewrite Hin.
  - cbn [drain_inners] in H. apply merge_steps_app_inv in H.
    destruct H as (st1 & H1 & H2).
    destruct (drain_one_back env config items done obs fin st st1 s Hin H1)
      as [Hi1 Hp1].
    assert (Hi1' : inners st1 = (done ++ [([], None)]) ++ obs)
      by (now rewrite <- app_assoc).
    replace (S (List.length done)) with (List.length (done ++ [([], @None error)])) in H2
      by (rewrite length_app; cbn; lia).
    destruct (IH _ st1 st' s Hi1' H2) as [Hi Hp].
    split; [|congruence]. rewrite Hi, <- app_assoc. reflexivity.
Qed.

(** A subscription completes only if every descriptor has a parser and
    every parse emits objects and completes. *)
Lemma subscribe_returns (env : Env) (config : value) (files results : list value)
      (s : store) :
  res (subscribe env config files s) = inr results ->
  Forall (parses_ok env) files.
Proof.
  unfold subscribe. intros H.
  assert (Hdb : forall ticks st, db (merge_steps env config ticks st s) = s)
    by (intros; apply (stage_db env parse_event no_error), merge_steps_stage).
  apply bind_res_inr in H. destruct H as (st1 & H1 & H). rewrite Hdb in H.
  apply bind_res_inr in H. destruct H as (st2 & H2 & H). rewrite Hdb in H.
  apply bind_res_inr in H. destruct H as (st3 & H3 & _).
  pose proof (outer_ticks_pending _ _ _ _ _ _ H2) as Hlen.
  rewrite Nat.sub_diag in Hlen. apply length_zero_iff_nil in Hlen.
  destruct (drain_all_back env config (inners st2) [] st2 st3 s eq_refl H3)
    as [Hi3 Hp3].
  assert (Hh3 : healthy env st3).
  { split; [rewrite Hp3, Hlen; constructor|]. rewrite Hi3. cbn [app].
    apply Forall_forall. intros o Ho. apply in_map_iff in Ho.
    destruct Ho as (? & <- & _). split; [reflexivity|constructor]. }
  pose proof (merge_steps_healthy_back _ _ _ _ _ _ H3 Hh3) as Hh2.
  pose proof (merge_steps_healthy_back _ _ _ _ _ _ H2 Hh2) as Hh1.
  pose proof (merge_steps_healthy_back _ _ _ _ _ _ H1 Hh1) as Hh0.
  exact (proj1 Hh0).
Qed.

(** ** What the exit status depends on *)

Lemma job_res (env : Env) (config : value) (s : store) :
  res (job env config s) =
  if is_nullish (get_prop config "groupId")
  then inl (Uncaught (IAE "groupId is a required property"))
  else
    match mongo_start env with
    | Some _ => inl (Exit 255)
    | None =>
        match res (download env config s) with
        | inl o => inl o
        | inr files =>
            match deleteData_error env (get_prop config "groupId") with
            | Some _ => inl (Exit 255)
            | None =>
                match res (subscribe env config files
                                     (purge (get_prop config "groupId") s)) with
                | inl o => inl o
                | inr [] => inl (Exit 255)
                | inr (r :: results) =>
                    match storeData_error env (r :: results) with
                    | Some _ => inl (Exit 255)
                    | None => inl (Exit 0)
                    end
                end
            end
        end
    end.
Proof.
  unfold job.
  destruct (is_nullish (get_prop config "groupId")) eqn:Hg.
  - now rewrite (pre_hasProperty_missing _ _ _ Hg).
  - rewrite (pre_hasProperty_present _ _ _ Hg). unfold go.
    rewrite bind_emit. cbn [res].
    destruct (mongo_start env) as [err|]; [now rewrite fail_run|].
    rewrite res_bind, (stage_db _ _ _ _ s (download_stage env config)).
    destruct (res (download env config s)) as [o|files]; [reflexivity|].
    rewrite res_bind, removeData_run. cbn [res db].
    destruct (deleteData_error env (get_prop config "groupId")) as [err|];
      [now rewrite fail_run|].
    fold (purge (get_prop config "groupId") s).
    rewrite res_bind.
    rewrite (stage_db _ _ _ _ (purge (get_prop config "groupId") s)
               (subscribe_stage env config files)).
    destruct (res (subscribe env config files (purge (get_prop config "groupId") s)))
      as [o|[|r results]]; [reflexivity|now rewrite fail_run|].
    rewrite res_bind, storeData_run. cbn [res db].
    destruct (storeData_error env (r :: results)) as [err|];
      [now rewrite fail_run|reflexivity].
Qed.

Lemma stage_res (env : Env) (P : event -> Prop) {A} (m : M A) (s : store) :
  stage env P no_error m ->
  (exists a, res (m s) = inr a) \/ res (m s) = inl (Exit 255).
Proof.
  intros H. destruct (H s) as [_ Hs].
  destruct (res (m s)) as [[c|e]|a]; [right|exfalso|left].
  - destruct Hs as [-> _]. reflexivity.
  - destruct Hs as [_ []].
  - now exists a.
Qed.

Lemma download_uncaught (env env' : Env) (config : value) (s : store) (e : error) :
  (forall k, start_task env' config k s = start_task env config k s) ->
  res (download env config s) = inl (Uncaught e) ->
  res (download env' config s) = inl (Uncaught e).
Proof.
  intros Hst. unfold download.
  assert (Hdb : forall k', db (start_task env config k' s) = s)
    by (intros; apply (stage_db _ _ _ _ s (start_task_stage env config k'))).
  do 4 (rewrite (res_bind (start_task env config _)),
          (res_bind (start_task env' config _)), Hst, Hdb;
        match goal with
        | |- context [res (start_task env config ?k s)] =>
            destruct (res (start_task env config k s)) as [?o|?t]; [trivial|]
        end).
  rewrite res_bind. intros H.
  match type of H with
  | context [run_callbacks env config ?o ?ts] =>
      destruct (stage_res env fetch_event (run_callbacks env config o ts) s
                  (run_callbacks_stage env no_error config o ts)) as [[ts' Hr]|Hr];
        rewrite Hr in H; discriminate
  end.
Qed.

Lemma download_res_orders (env : Env) (fo : list source) (po : list tick)
      (config : value) (s : store) :
  res (download (with_orders env fo po) config s) = res (download env config s).
Proof.
  set (env' := with_orders env fo po).
  assert (Hsucc : forall k, fetch_succeeded env' config k <-> fetch_succeeded env config k)
    by (intros; reflexivity).
  destruct (res (download env config s)) as [[c|e]|files] eqn:E;
    destruct (res (download env' config s)) as [[c'|e']|files'] eqn:E'.
  - pose proof (proj2 (download_stage env config s)) as H. rewrite E in H.
    pose proof (proj2 (download_stage env' config s)) as H'. rewrite E' in H'.
    destruct H as [-> _], H' as [-> _]. reflexivity.
  - apply (download_uncaught env' env) in E'; [congruence|reflexivity].
  - apply download_returns in E'. destruct E' as [_ Hok].
    rewrite (download_succeeds env config s) in E; [discriminate|].
    intros k Hk. apply Hsucc, Hok, Hk.
  - apply (download_uncaught env env') in E; [congruence|reflexivity].
  - apply (download_uncaught env env') in E; [congruence|reflexivity].
  - apply (download_uncaught env env') in E; [congruence|reflexivity].
  - apply download_returns in E. destruct E as [_ Hok].
    rewrite (download_succeeds env' config s) in E'; [discriminate|].
    intros k Hk. apply Hsucc, Hok, Hk.
  - apply (download_uncaught env' env) in E'; [congruence|reflexivity].
  - apply download_returns in E, E'. destruct E as [-> _], E' as [-> _].
    reflexivity.
Qed.

Lemma subscribe_res_orders (env : Env) (fo : list source) (po : list tick)
      (config : value) (files : list value) (s : store) :
  match res (subscribe (with_orders env fo po) config files s),
        res (subscribe env config files s) with
  | inr results', inr results => Permutation results' results
  | inl o', inl o => o' = o
  | _, _ => False
  end.
Proof.
  set (env' := with_orders env fo po).
  assert (Hp : forall d, parses_ok env' d <-> parses_ok env d) by (intros; reflexivity).
  destruct (res (subscribe env config files s)) as [o|results] eqn:E;
    destruct (res (subscribe env' config files s)) as [o'|results'] eqn:E'.
  - destruct (stage_res env parse_event (subscribe env config files) s
                (subscribe_stage env config files)) as [[? H]|H];
      destruct (stage_res env' parse_event (subscribe env' config files) s
                  (subscribe_stage env' config files)) as [[? H']|H']; congruence.
  - apply subscribe_returns in E'.
    destruct (subscribe_succeeds env config files s) as (r & Hr & _); [|congruence].
    apply Forall_impl with (2 := E'). intros d. apply Hp.
  - apply subscribe_returns in E.
    destruct (subscribe_succeeds env' config files s) as (r & Hr & _); [|congruence].
    apply Forall_impl with (2 := E). intros d. apply Hp.
  - pose proof (subscribe_returns _ _ _ _ _ E) as Hok.
    destruct (subscribe_succeeds env config files s Hok) as (r & Hr & Hperm).
    destruct (subscribe_succeeds env' config files s) as (r' & Hr' & Hperm').
    { apply Forall_impl with (2 := Hok). intros d. apply Hp. }
    assert (r = results) by congruence. assert (r' = results') by congruence.
    subst. rewrite Hperm', Hperm. reflexivity.
Qed.

Lemma bind_db {A B} (m : M A) (f : A -> M B) (s : store) :
  db (bind m f s) =
  match res (m s) with
  | inr a => db (f a (db (m s)))
  | inl _ => db (m s)
  end.
Proof. unfold bind. now destruct (res (m s)). Qed.

Lemma job_db (env : Env) (config : value) (s : store) :
  db (job env config s) =
  if is_nullish (get_prop config "groupId") then s
  else
    match mongo_start env with
    | Some _ => s
    | None =>
        match res (download env config s) with
        | inl _ => s
        | inr files =>
            match deleteData_error env (get_prop config "groupId") with
            | Some _ => s
            | None =>
                match res (subscribe env config files
                                     (purge (get_prop config "groupId") s)) with
                | inl _ => purge (get_prop config "groupId") s
                | inr [] => purge (get_prop config "groupId") s
                | inr (r :: results) =>
                    match storeData_error env (r :: results) with
                    | Some _ => purge (get_prop config "groupId") s
                    | None => purge (get_prop config "groupId") s ++ r :: results
                    end
                end
            end
        end
    end.
Proof.
  unfold job.
  destruct (is_nullish (get_prop config "groupId")) eqn:Hg.
  - now rewrite (pre_hasProperty_missing _ _ _ Hg).
  - rewrite (pre_hasProperty_present _ _ _ Hg). unfold go.
    rewrite bind_emit. cbn [db].
    destruct (mongo_start env) as [err|]; [now rewrite fail_run|].
    rewrite bind_db, (stage_db _ _ _ _ s (download_stage env config)).
    destruct (res (download env config s)) as [o|files]; [reflexivity|].
    rewrite bind_db, removeData_run. cbn [res db].
    destruct (deleteData_error env (get_prop config "groupId")) as [err|];
      [now rewrite fail_run|].
    fold (purge (get_prop config "groupId") s).
    rewrite bind_db.
    rewrite (stage_db _ _ _ _ (purge (get_prop config "groupId") s)
               (subscribe_stage env config files)).
    destruct (res (subscribe env config files (purge (get_prop config "groupId") s)))
      as [o|[|r results]]; [reflexivity|now rewrite fail_run|].
    rewrite bind_db, storeData_run. cbn [res db].
    destruct (storeData_error env (r :: results)) as [err|];
      [now rewrite fail_run|reflexivity].
Qed.

(** X3. The order in which the fetch callbacks run and the parsed records
    arrive changes neither how a job ends nor, up to the order of the
    records, the collection it leaves, provided the answer of the bulk store
    does not depend on the order of the records it is given.  (The reason
    logged for a failure may differ: the first error wins.) *)
Theorem outcome_independent_of_order (env : Env) (config : value) (s : store)
        (fo : list source) (po : list tick) :
  (forall l l', Permutation l l' -> storeData_error env l = storeData_error env l') ->
  res (job (with_orders env fo po) config s) = res (job env config s) /\
  Permutation (db (job (with_orders env fo po) config s)) (db (job env config s)).
Proof.
  intros Hstable. rewrite !job_res, !job_db.
  change (mongo_start (with_orders env fo po)) with (mongo_start env).
  change (deleteData_error (with_orders env fo po)) with (deleteData_error env).
  change (storeData_error (with_orders env fo po)) with (storeData_error env).
  rewrite download_res_orders.
  destruct (is_nullish (get_prop config "groupId")); [now split|].
  destruct (mongo_start env); [now split|].
  destruct (res (download env config s)) as [o|files]; [now split|].
  destruct (deleteData_error env (get_prop config "groupId")); [now split|].
  pose proof (subscribe_res_orders env fo po config files
                (purge (get_prop config "groupId") s)) as Hsub.
  destruct (res (subscribe (with_orders env fo po) config files
                           (purge (get_prop config "groupId") s)))
    as [o'|results'];
    destruct (res (subscribe env config files (purge (get_prop config "groupId") s)))
      as [o|results]; try contradiction.
  - subst o'. now split.
  - destruct results' as [|r' results'], results as [|r results].
    + now split.
    + apply Permutation_nil in Hsub. discriminate.
    + symmetry in Hsub. apply Permutation_nil in Hsub. discriminate.
    + rewrite (Hstable _ _ Hsub).
      destruct (storeData_error env (r :: results)); split; try reflexivity.
      now apply Permutation_app_head.
Qed.

Lemma outcome_independent_of_order_witness :
  res (job (with_orders healthy_env [dexcom; dexcom; carelink]
                        [OuterNext; OuterNext; InnerNext 1; InnerNext 0; InnerNext 1])
           carelink_dexcom_job sample_store) = inl (Exit 0) /\
  Permutation
    (db (job (with_orders healthy_env [dexcom; dexcom; carelink]
                          [OuterNext; OuterNext; InnerNext 1; InnerNext 0; InnerNext 1])
             carelink_dexcom_job sample_store))
    (db (job healthy_env carelink_dexcom_job sample_store)).
Proof.
  destruct (outcome_independent_of_order healthy_env carelink_dexcom_job sample_store
              [dexcom; dexcom; carelink]
              [OuterNext; OuterNext; InnerNext 1; InnerNext 0; InnerNext 1])
    as [Hres Hdb].
  - intros l l' _. reflexivity.
  - split; [rewrite Hres; reflexivity | exact Hdb].
Defined.

(** X4. What exit code 0 guarantees: the job description named a group, the
    database started, every configured option was fetched and stored, the
    deletion succeeded, every descriptor had a parser whose parse emitted
    objects and completed, and at least one record was parsed; the records
    were stored in one bulk call, and the collection left is the old one
    without the group's records followed by the tagged records of this
    run. *)
Theorem exit_zero_guarantees (env : Env) (config : value) (s : store) :
  res (job env config s) = inl (Exit 0) ->
  is_nullish (get_prop config "groupId") = false /\
  mongo_start env = None /\
  (forall k, is_nullish (source_config config k) = false ->
             fetch_succeeded env config k) /\
  deleteData_error env (get_prop config "groupId") = None /\
  Forall (parses_ok env) (locations env config) /\
  exists results,
    results <> [] /\
    Permutation results (map (tag config) (parsed_records env (locations env config))) /\
    storeData_error env results = None /\
    db (job env config s) = purge (get_prop config "groupId") s ++ results.
Proof.
  rewrite job_res, job_db.
  destruct (is_nullish (get_prop config "groupId")); [discriminate|].
  destruct (mongo_start env); [discriminate|].
  destruct (res (download env config s)) as [o|files] eqn:Ed.
  { intros H. injection H as ->.
    pose proof (proj2 (download_stage env config s)) as Hs. rewrite Ed in Hs.
    destruct Hs as [Hs _]. discriminate. }
  apply download_returns in Ed. destruct Ed as [-> Hok].
  destruct (deleteData_error env (get_prop config "groupId")); [discriminate|].
  destruct (res (subscribe env config (locations env config)
                           (purge (get_prop config "groupId") s)))
    as [o|[|r results]] eqn:Es; try discriminate.
  { intros H. injection H as ->.
    pose proof (proj2 (subscribe_stage env config (locations env config)
                         (purge (get_prop config "groupId") s))) as Hs.
    rewrite Es in Hs. destruct Hs as [Hs _]. discriminate. }
  pose proof (subscribe_returns _ _ _ _ _ Es) as Hparse.
  destruct (subscribe_succeeds env config (locations env config)
              (purge (get_prop config "groupId") s) Hparse) as (r0 & Hr0 & Hperm).
  assert (r0 = r :: results) by congruence. subst r0.
  destruct (storeData_error env (r :: results)) eqn:Ese; [discriminate|].
  intros _. do 5 (split; [assumption || reflexivity|]).
  exists (r :: results). split; [discriminate|]. split; [exact Hperm|].
  split; [exact Ese|reflexivity].
Qed.

Lemma exit_zero_guarantees_witness :
  res (job healthy_env carelink_job sample_store) = inl (Exit 0) /\
  fetch_succeeded healthy_env carelink_job carelink /\
  Forall (parses_ok healthy_env) (locations healthy_env carelink_job).
Proof.
  assert (H : res (job healthy_env carelink_job sample_store) = inl (Exit 0))
    by reflexivity.
  destruct (exit_zero_guarantees healthy_env carelink_job sample_store H)
    as (_ & _ & Hok & _ & Hp & _).
  split; [exact H|]. split; [|exact Hp]. now apply Hok.
Defined.

(** ** What [download] hands on *)

(** X5. [download] hands descriptors to its callback exactly when every
    configured option has been fetched and its blob stored without error;
    they then come in the fixed order carelink, diasend, tconnect, dexcom of
    the tasks.  How [download] ends does not depend on the order in which the
    callbacks ran. *)
Theorem download_hands_on (env : Env) (config : value) (s : store)
        (files : list value) :
  (res (download env config s) = inr files <->
   (forall k, is_nullish (source_config config k) = false ->
              fetch_succeeded env config k) /\
   files = filter (fun e => negb (is_nullish e))
                  (map (location_of env config) [carelink; diasend; tconnect; dexcom])) /\
  (forall fo po,
      res (download (with_orders env fo po) config s) = res (download env config s)).
Proof.
  split; [split|].
  - intros H. apply download_returns in H. destruct H as [-> Hok]. now split.
  - intros [Hok ->]. now apply download_succeeds.
  - intros fo po. apply download_res_orders.
Qed.

(** X6. When the blob store calls back without an error but with a null
    location, carelink, diasend and tconnect are dropped without a word: no
    descriptor is handed on for them.  The dexcom task has no such guard and
    hands on a descriptor with the null location. *)
Theorem null_location_descriptor (env : Env) (config : value) (s : store)
        (files : list value) (k : source) (loc : value) :
  res (download env config s) = inr files ->
  is_nullish (source_config config k) = false ->
  saved env config k = Some (None, loc) ->
  is_nullish loc = true ->
  filter (has_source k) files =
  match k with
  | dexcom => [VObj [("source", VStr "dexcom"); ("location", loc);
                     ("config", get_prop config "dexcom")]]
  | _ => []
  end.
Proof.
  intros Hdl Hk Hs Hloc. apply download_returns in Hdl. destruct Hdl as [-> _].
  rewrite locations_by_source. unfold location_of. rewrite Hk, Hs, Hloc.
  destruct k; try (rewrite Hloc); reflexivity.
Qed.

Lemma null_location_descriptor_witness :
  res (download unlocated_env carelink_dexcom_job sample_store) =
    inr [VObj [("source", VStr "dexcom"); ("location", VNull);
               ("config", get_prop carelink_dexcom_job "dexcom")]] /\
  filter (has_source carelink)
         [VObj [("source", VStr "dexcom"); ("location", VNull);
                ("config", get_prop carelink_dexcom_job "dexcom")]] = [] /\
  filter (has_source dexcom)
         [VObj [("source", VStr "dexcom"); ("location", VNull);
                ("config", get_prop carelink_dexcom_job "dexcom")]] =
  [VObj [("source", VStr "dexcom"); ("location", VNull);
         ("config", get_prop carelink_dexcom_job "dexcom")]].
Proof.
  assert (H : res (download unlocated_env carelink_dexcom_job sample_store) =
              inr [VObj [("source", VStr "dexcom"); ("location", VNull);
                         ("config", get_prop carelink_dexcom_job "dexcom")]])
    by reflexivity.
  split; [exact H|]. split.
  - exact (null_location_descriptor unlocated_env carelink_dexcom_job sample_store _
             carelink VNull H eq_refl eq_refl eq_refl).
  - exact (null_location_descriptor unlocated_env carelink_dexcom_job sample_store _
             dexcom VNull H eq_refl eq_refl eq_refl).
Defined.

(** ** A fetch that fails *)

(** X7. When a configured option cannot be fetched and stored, the job ends
    without exit code 0 and before anything is deleted, parsed or stored:
    the collection is left exactly as it was. *)
Theorem failed_fetch_leaves_data (env : Env) (config : value) (s : store) (k : source) :
  is_nullish (source_config config k) = false ->
  ~ fetch_succeeded env config k ->
  res (job env config s) <> inl (Exit 0) /\
  db (job env config s) = s /\
  Forall (fun e => ~ is_delete_call e /\ ~ is_parse_call e /\ ~ is_store_call e)
         (trace (job env config s)).
Proof.
  intros Hk Hnot.
  assert (Hfetch : forall l, Forall fetch_event l ->
             Forall (fun e => ~ is_delete_call e /\ ~ is_parse_call e /\ ~ is_store_call e) l).
  { intros l. apply Forall_impl. intros []; cbn; tauto. }
  assert (Hfail : forall reason err,
             Forall (fun e => ~ is_delete_call e /\ ~ is_parse_call e /\ ~ is_store_call e)
                    (fail_events env reason err)).
  { intros reason err. unfold fail_events.
    destruct (taskStorageDir env); repeat constructor; cbn; tauto. }
  ending_cases (job_ending env config s); cbn [res db trace];
    try (exfalso; apply Hnot, Hok, Hk).
  - split; [discriminate|]. split; [reflexivity|constructor].
  - split; [discriminate|]. split; [reflexivity|].
    constructor; [cbn; tauto|apply Hfail].
  - split; [discriminate|]. split; [reflexivity|].
    constructor; [cbn; tauto|now apply Hfetch].
  - split; [discriminate|]. split; [reflexivity|].
    constructor; [cbn; tauto|]. apply Forall_app. split; [now apply Hfetch|apply Hfail].
Qed.

Lemma failed_fetch_leaves_data_witness :
  res (job dexcom_down_env dexcom_job sample_store) = inl (Exit 255) /\
  db (job dexcom_down_env dexcom_job sample_store) = sample_store.
Proof.
  assert (Hnot : ~ fetch_succeeded dexcom_down_env dexcom_job dexcom).
  { intros [loc H]. vm_compute in H. discriminate. }
  destruct (failed_fetch_leaves_data dexcom_down_env dexcom_job sample_store dexcom
              eq_refl Hnot) as (_ & Hdb & _).
  split; [reflexivity|exact Hdb].
Defined.

(** ** The records of other groups *)

Lemma value_eqb_eq : forall a b : value, value_eqb a b = true -> a = b.
Proof.
  fix IH 1. intros [| |x|x|x|xs] [| |y|y|y|ys]; cbn; try discriminate; intros H.
  - reflexivity.
  - reflexivity.
  - f_equal. now apply Bool.eqb_prop.
  - f_equal. now apply Z.eqb_eq.
  - f_equal. now apply String.eqb_eq.
  - f_equal. revert ys H.
    induction xs as [|[k v] xs IHxs]; intros [|[k' v'] ys]; try discriminate.
    + reflexivity.
    + intros H. apply andb_prop in H. destruct H as [H H3].
      apply andb_prop in H. destruct H as [H1 H2].
      apply String.eqb_eq in H1. apply IH in H2. apply IHxs in H3. congruence.
Qed.

Lemma persisted_purge_other (g g' : value) (s : store) :
  g' <> g -> persisted g' (purge g s) = persisted g' s.
Proof.
  intros Hg. unfold persisted, purge.
  induction s as [|r s IH]; [reflexivity|].
  cbn [filter]. destruct (in_group g r) eqn:E; cbn [negb filter].
  - destruct (in_group g' r) eqn:E'; [|exact IH].
    unfold in_group in *. apply value_eqb_eq in E, E'. congruence.
  - now rewrite IH.
Qed.

Lemma persisted_tagged_other (config : value) (g' : value) (records : list value) :
  g' <> get_prop config "groupId" ->
  Forall (tagged config) records ->
  persisted g' records = [].
Proof.
  intros Hg. induction 1 as [|r records Hr _ IH]; [reflexivity|].
  unfold persisted in *. cbn [filter].
  destruct (in_group g' r) eqn:E; [|exact IH].
  unfold in_group in E. apply value_eqb_eq in E.
  rewrite (tagged_groupId _ _ Hr) in E. congruence.
Qed.

(** X8. A job touches the records of its own group only: whatever happens,
    the persisted records of every other group are the same after the run
    as before.  (The record store is the one described for
    [streamDAO.deleteData] and [streamDAO.storeData]; the job's part is that
    it deletes for [config.groupId] only and stores only records it has
    tagged with that group.) *)
Theorem other_groups_untouched (env : Env) (config : value) (s : store) (g' : value) :
  g' <> get_prop config "groupId" ->
  persisted g' (db (job env config s)) = persisted g' s.
Proof.
  intros Hg. rewrite job_db.
  destruct (is_nullish (get_prop config "groupId")); [reflexivity|].
  destruct (mongo_start env); [reflexivity|].
  destruct (res (download env config s)) as [o|files]; [reflexivity|].
  destruct (deleteData_error env (get_prop config "groupId")); [reflexivity|].
  destruct (res (subscribe env config files (purge (get_prop config "groupId") s)))
    as [o|[|r results]] eqn:Es; try now apply persisted_purge_other.
  destruct (storeData_error env (r :: results)); [now apply persisted_purge_other|].
  unfold persisted. rewrite filter_app.
  fold (persisted g' (purge (get_prop config "groupId") s)).
  fold (persisted g' (r :: results)).
  rewrite (persisted_purge_other _ _ _ Hg).
  rewrite (persisted_tagged_other config g' (r :: results) Hg).
  - apply app_nil_r.
  - now apply subscribe_tagged with (1 := Es).
Qed.

Lemma other_groups_untouched_witness :
  persisted (VStr "g9") (db (job healthy_env carelink_job sample_store)) =
  [VObj [("type", VStr "cbg"); ("_groupId", VStr "g9")]].
Proof.
  rewrite (other_groups_untouched healthy_env carelink_job sample_store (VStr "g9")).
  - reflexivity.
  - discriminate.
Defined.

(** ** The reasons of failures *)

Lemma failing_value (env : Env) (P : event -> Prop) (R : string -> error -> Prop)
      {A} (r : Run A) (a : A) :
  res r = inr a -> failing env P R r.
Proof. intros H c Hc. congruence. Qed.

Lemma failing_fail (env : Env) (P : event -> Prop) (R : string -> error -> Prop)
      {A} (reason : string) (err : error) (s : store) :
  R reason err -> failing env P R (@fail env A reason err s).
Proof.
  intros HR c _. rewrite fail_run. cbn [trace].
  exists [], reason, err. split; [reflexivity|]. split; [constructor|exact HR].
Qed.

Lemma failing_bind (env : Env) (P : event -> Prop) (R : string -> error -> Prop)
      (U : error -> Prop) {A B} (m : M A) (f : A -> M B) (s : store) :
  stage env P U m ->
  failing env P R (m s) ->
  (forall a, res (m s) = inr a -> failing env P R (f a s)) ->
  failing env P R (bind m f s).
Proof.
  intros Hst H1 H2 c. destruct (Hst s) as [Hdb Hs].
  rewrite res_bind, trace_bind, Hdb.
  destruct (res (m s)) as [o|a] eqn:E.
  - intros Ho. injection Ho as ->. rewrite app_nil_r. now apply H1 with (c := c).
  - intros Hc. destruct (H2 a eq_refl c Hc) as (pre & reason & err & Ht & Hp & HR).
    exists (trace (m s) ++ pre), reason, err. split.
    + now rewrite Ht, app_assoc.
    + split; [|exact HR]. apply Forall_app. now split.
Qed.

Lemma start_task_no_exit (env : Env) (config : value) (k : source) (s : store) (c : Z) :
  res (start_task env config k s) <> inl (Exit c).
Proof.
  rewrite start_task_fetch. unfold fetch.
  destruct (is_nullish (source_config config k)); [discriminate|].
  destruct (ingestion env (js_string (get_prop (source_config config k) "type")))
    as [a|]; [|discriminate].
  rewrite !bind_emit. cbn [res].
  destruct (antacid_fetch a (source_config config k)); discriminate.
Qed.

Lemma resume_failing (env : Env) (config : value) (k : source) (t : task) (s : store) :
  task_inv env config k t ->
  failing env fetch_event (fetch_failure env config) (resume env config k t s).
Proof.
  intros Hinv. destruct t as [|[e|ds]|err loc|err loc u|r].
  - rewrite resume_tick. now apply failing_value with (a := Settled VUndefined).
  - destruct Hinv as (Hk & a & Ha & Hf).
    apply failing_fail. now apply fetcher_failed with (k := k) (a := a).
  - rewrite resume_save. eapply failing_value. reflexivity.
  - destruct Hinv as [Hk Hs].
    destruct (source_eq_dec k dexcom) as [->|Hd].
    + rewrite resume_saved_dexcom. eapply failing_value. reflexivity.
    + destruct err as [e|].
      * rewrite (resume_saved_error _ _ _ _ _ _ Hd). intros c _. cbn [trace].
        exists [], (message e), e. split; [reflexivity|]. split; [constructor|].
        now apply save_failed with (k := k) (loc := loc).
      * rewrite (resume_saved_ok _ _ _ _ _ Hd). eapply failing_value. reflexivity.
  - destruct Hinv as (-> & Hk & Hs). rewrite resume_unlinked.
    destruct err as [e|]; [|eapply failing_value; reflexivity].
    intros c _. cbn [trace]. exists (unlink_warning config u), (message e), e.
    split; [reflexivity|]. split.
    + destruct u; repeat constructor.
    + now apply save_failed with (k := dexcom) (loc := loc).
  - eapply failing_value. reflexivity.
Qed.

Lemma run_callbacks_failing (env : Env) (config : value) (order : list source) :
  forall (ts : tasks) (s : store),
    (forall k, task_inv env config k (ts k)) ->
    failing env fetch_event (fetch_failure env config)
            (run_callbacks env config order ts s).
Proof.
  induction order as [|k order IH]; intros ts s Hinv; cbn [run_callbacks].
  - eapply failing_value. reflexivity.
  - apply failing_bind with (U := no_error).
    + apply resume_stage.
    + now apply resume_failing.
    + intros t' Ht'. apply IH. intros k'.
      destruct (source_eq_dec k k') as [<-|Hk].
      * rewrite set_task_same. now apply resume_inv with (2 := Ht').
      * rewrite (set_task_other _ _ _ _ Hk). apply Hinv.
Qed.

Lemma download_failing (env : Env) (config : value) (s : store) :
  failing env fetch_event (fetch_failure env config) (download env config s).
Proof.
  unfold download.
  do 4 (apply failing_bind with (U := thrown_at_fetch env config);
        [ apply start_task_stage
        | intros c Hc; now apply start_task_no_exit in Hc
        | intros ? ? ]).
  apply failing_bind with (U := no_error).
  - apply run_callbacks_stage.
  - apply run_callbacks_failing.
    intros k; destruct k; now apply start_task_inv with (s := s).
  - intros ts' _. eapply failing_value. reflexivity.
Qed.

Lemma parse_location_run (env : Env) (locSpec : value) (s : store) :
  parse_location env locSpec s =
  match ingestion env (js_string (get_prop locSpec "source")) with
  | None =>
      mkRun [] s
        (inr (inl (ISE ("Unknown data source[" ++
                        js_string (get_prop locSpec "source") ++ "]")%string)))
  | Some a =>
      mkRun [EvStorageGet (get_prop locSpec "location"); parse_call env locSpec] s
            (inr (inr (antacid_parse a (storage_get env (get_prop locSpec "location"))
                                     (get_prop locSpec "config"))))
  end.
Proof.
  unfold parse_location.
  now destruct (ingestion env (js_string (get_prop locSpec "source"))).
Qed.

Lemma set_groupId_error (config e : value) (err : error) :
  set_groupId config e = inl err ->
  err = TypeError "Cannot assign property _groupId" /\ ~ is_object e.
Proof.
  destruct e; cbn; intros H; try discriminate; injection H as <-; split; auto.
Qed.

Lemma merge_step_sound (env : Env) (config : value) (files : list value) (t : tick)
      (st : merge_state) (s : store) :
  sound env files st ->
  failing env parse_event (parse_stage_reason env files) (merge_step env config t st s) /\
  forall st', res (merge_step env config t st s) = inr st' -> sound env files st'.
Proof.
  intros [Hpe Hin]. destruct t as [|i]; cbn [merge_step].
  - destruct (pending st) as [|d rest] eqn:Ep.
    + split; [now apply failing_value with (a := st)|].
      cbn. intros st' H. injection H as <-. split; [now rewrite Ep|exact Hin].
    + assert (Hd : In d files) by (apply Hpe; now left).
      unfold bind. rewrite parse_location_run.
      destruct (ingestion env (js_string (get_prop d "source"))) as [a|] eqn:Ea;
        cbn [res trace db].
      * split; [eapply failing_value; reflexivity|].
        cbn. intros st' H. injection H as <-. split; cbn [pending inners].
        -- intros x Hx. apply Hpe. now right.
        -- apply Forall_app. split; [exact Hin|]. constructor; [|constructor].
           exists d, (antacid_parse a (storage_get env (get_prop d "location"))
                                    (get_prop d "config")), [].
           unfold parsed. rewrite Ea. auto.
      * rewrite fail_run. cbn [res trace db]. split; [|discriminate].
        intros c _. cbn [trace app]. eexists [], _, _.
        split; [reflexivity|]. split; [constructor|]. split; [reflexivity|].
        now apply no_parser.
  - destruct (nth_error (inners st) i) as [[items fin]|] eqn:En.
    2:{ split; [now apply failing_value with (a := st)|].
        cbn. intros st' H. injection H as <-. now split. }
    assert (Ho : inner_of env files (items, fin)).
    { apply nth_error_In in En.
      exact (proj1 (Forall_forall _ _) Hin _ En). }
    destruct Ho as (d & obs & consumed & Hd & Hobs & Hfst & Hsnd). cbn [fst snd] in *.
    destruct items as [|e more].
    + destruct fin as [err|].
      * split; [|rewrite fail_run; discriminate].
        apply failing_fail. split; [reflexivity|].
        now apply parse_error with (d := d) (obs := obs).
      * split; [now apply failing_value with (a := st)|].
        cbn. intros st' H. injection H as <-. now split.
    + destruct (set_groupId config e) as [err|e'] eqn:Ee.
      * split; [|rewrite fail_run; discriminate].
        apply failing_fail. split; [reflexivity|].
        apply set_groupId_error in Ee. destruct Ee as [-> Hno].
        apply not_an_object with (d := d) (obs := obs) (e := e); auto.
        rewrite Hfst. apply in_or_app. right. now left.
      * split; [eapply failing_value; reflexivity|].
        cbn. intros st' H. injection H as <-. split; [exact Hpe|].
        cbn [inners].
        destruct (replace_nth_split (inners st) i _ (more, fin) En)
          as (l1 & l2 & Hl & Hr & _).
        unfold observable in *. rewrite Hr. rewrite Hl in Hin.
        apply Forall_app in Hin. destruct Hin as [H1 H2].
        inversion H2 as [|? ? _ H3]; subst. apply Forall_app. split; [exact H1|].
        constructor; [|exact H3].
        exists d, obs, (consumed ++ [e]). cbn [fst snd].
        rewrite <- app_assoc. auto.
Qed.

Lemma merge_steps_sound (env : Env) (config : value) (files : list value)
      (ticks : list tick) :
  forall (st : merge_state) (s : store),
    sound env files st ->
    failing env parse_event (parse_stage_reason env files)
            (merge_steps env config ticks st s) /\
    forall st', res (merge_steps env config ticks st s) = inr st' -> sound env files st'.
Proof.
  induction ticks as [|t rest IH]; intros st s Hs; cbn [merge_steps].
  - split; [now apply failing_value with (a := st)|].
    cbn. intros st' H. now injection H as <-.
  - destruct (merge_step_sound env config files t st s Hs) as [Hf Hnext]. split.
    + apply failing_bind with (U := no_error);
        [apply merge_step_stage | exact Hf |].
      intros st1 H1. now apply IH, Hnext.
    + intros st' H. apply bind_res_inr in H. destruct H as (st1 & H1 & H).
      rewrite merge_step_db in H. exact (proj2 (IH st1 s (Hnext st1 H1)) st' H).
Qed.

Lemma subscribe_failing (env : Env) (config : value) (files : list value) (s : store) :
  failing env parse_event (parse_stage_reason env files) (subscribe env config files s).
Proof.
  unfold subscribe.
  assert (H0 : sound env files (mkMerge files [] []))
    by (split; [apply incl_refl|constructor]).
  destruct (merge_steps_sound env config files (parse_order env) _ s H0) as [Hf1 Hn1].
  apply failing_bind with (U := no_error); [apply merge_steps_stage|exact Hf1|].
  intros st1 H1. specialize (Hn1 st1 H1).
  destruct (merge_steps_sound env config files
              (repeat OuterNext (List.length (pending st1))) st1 s Hn1) as [Hf2 Hn2].
  apply failing_bind with (U := no_error); [apply merge_steps_stage|exact Hf2|].
  intros st2 H2. specialize (Hn2 st2 H2).
  destruct (merge_steps_sound env config files (drain_inners 0 (inners st2)) st2 s Hn2)
    as [Hf3 _].
  apply failing_bind with (U := no_error); [apply merge_steps_stage|exact Hf3|].
  intros st3 _. eapply failing_value. reflexivity.
Qed.

(** X9. A job that exits with code 255 has reported exactly one reason, and
    the reason tells the stage: ["Just another error"] for a database that
    did not start and also for a failed deletion; ["Couldn't fetch!?"] for
    a Fetcher that called back with an error; the blob store's own error
    message for a failed blob save; ["Problem parsing data"] for a
    descriptor without parser, a parse that ends in an error or a record
    that is not an object; ["No results"]; and
    ["Problem with DB, Oh Noes!"] for a failed bulk store. *)
Theorem failure_reasons (env : Env) (config : value) (s : store) :
  res (job env config s) = inl (Exit 255) ->
  exists pre reason err,
    trace (job env config s) = pre ++ fail_events env reason err /\
    Forall (fun e => ~ is_close_call e) pre /\
    failure env config reason err.
Proof.
  ending_cases (job_ending env config s); cbn [res trace]; intros Hres;
    try discriminate.
  - exists [EvMongoStart], "Just another error", err.
    split; [reflexivity|]. split; [repeat constructor; cbn; tauto|].
    now apply start_failure.
  - assert (Hx : res (download env config s) = inl (Exit 255)) by now rewrite Hd.
    destruct (download_failing env config s 255 Hx) as (pre & r & e & Ht & Hpre & HR).
    rewrite Hd in Ht. cbn [trace] in Ht. rewrite Ht.
    exists (EvMongoStart :: pre), r, e. split; [reflexivity|]. split.
    + constructor; [cbn; tauto|now apply fetch_event_not_close].
    + now apply fetch_stage_failure.
  - exists (EvMongoStart :: t1 ++ delete_events (get_prop config "groupId")),
      "Just another error", err.
    split; [cbn [app]; now rewrite <- app_assoc|]. split; [no_close|].
    now apply delete_failure.
  - assert (Hx : res (subscribe env config files (purge (get_prop config "groupId") s))
                 = inl (Exit 255)) by now rewrite Hsub.
    destruct (subscribe_failing env config files _ 255 Hx)
      as (pre & r & e & Ht & Hpre & -> & HR).
    rewrite Hsub in Ht. cbn [trace] in Ht. rewrite Ht.
    exists (EvMongoStart :: t1 ++ delete_events (get_prop config "groupId") ++ pre),
      "Problem parsing data", e.
    split; [cbn [app]; now rewrite <- !app_assoc|]. split; [no_close|].
    apply parse_stage_failure. now subst files.
  - exists (EvMongoStart :: t1 ++ delete_events (get_prop config "groupId") ++ t2),
      "No results", (mkError "Error" "No results").
    split; [cbn [app]; now rewrite <- !app_assoc|]. split; [no_close|].
    apply no_results_failure.
  - exists (EvMongoStart :: t1 ++ delete_events (get_prop config "groupId") ++ t2 ++
            [EvStoreData results]), "Problem with DB, Oh Noes!", err.
    split; [cbn [app]; now rewrite <- !app_assoc|]. split; [no_close|].
    now apply store_failure with (results := results).
Qed.

Lemma failure_reasons_witness :
  res (job save_down_env dexcom_job sample_store) = inl (Exit 255) /\
  exists pre reason err,
    trace (job save_down_env dexcom_job sample_store) =
      pre ++ fail_events save_down_env reason err /\
    Forall (fun e => ~ is_close_call e) pre /\
    failure save_down_env dexcom_job reason err.
Proof.
  split; [reflexivity|].
  exact (failure_reasons save_down_env dexcom_job sample_store eq_refl).
Defined.

(** ** The error artifact *)

Lemma fetch_event_no_write (l : list event) :
  Forall fetch_event l -> Forall (fun e => ~ is_artifact_write e) l.
Proof. apply Forall_impl. intros []; cbn; tauto. Qed.

Lemma parse_event_no_write (l : list event) :
  Forall parse_event l -> Forall (fun e => ~ is_artifact_write e) l.
Proof. apply Forall_impl. intros []; cbn; tauto. Qed.

Ltac no_write :=
  unfold delete_events, success_events;
  repeat first
    [ apply Forall_app; split
    | apply Forall_cons; [cbn; tauto|]
    | apply Forall_nil
    | apply fetch_event_no_write; assumption
    | apply parse_event_no_write; assumption ].

(** A job's trace: nothing is written before [fail] is reached. *)
Lemma job_trace_shape (env : Env) (config : value) (s : store) :
  (res (job env config s) = inl (Exit 255) /\
   exists pre reason err,
     trace (job env config s) = pre ++ fail_events env reason err /\
     Forall (fun e => ~ is_artifact_write e) pre) \/
  (res (job env config s) <> inl (Exit 255) /\
   Forall (fun e => ~ is_artifact_write e) (trace (job env config s))).
Proof.
  ending_cases (job_ending env config s); cbn [res trace].
  - right. split; [discriminate|constructor].
  - left. split; [reflexivity|]. exists [EvMongoStart], "Just another error", err.
    split; [reflexivity|no_write].
  - right. split; [discriminate|no_write].
  - left. split; [reflexivity|]. exists (EvMongoStart :: t1), reason, err.
    split; [reflexivity|no_write].
  - left. split; [reflexivity|].
    exists (EvMongoStart :: t1 ++ delete_events (get_prop config "groupId")),
      "Just another error", err.
    split; [cbn [app]; now rewrite <- app_assoc|no_write].
  - left. split; [reflexivity|].
    exists (EvMongoStart :: t1 ++ delete_events (get_prop config "groupId") ++ t2),
      reason, err.
    split; [cbn [app]; now rewrite <- !app_assoc|no_write].
  - left. split; [reflexivity|].
    exists (EvMongoStart :: t1 ++ delete_events (get_prop config "groupId") ++ t2),
      "No results", (mkError "Error" "No results").
    split; [cbn [app]; now rewrite <- !app_assoc|no_write].
  - left. split; [reflexivity|].
    exists (EvMongoStart :: t1 ++ delete_events (get_prop config "groupId") ++ t2 ++
            [EvStoreData results]), "Problem with DB, Oh Noes!", err.
    split; [cbn [app]; now rewrite <- !app_assoc|no_write].
  - right. split; [discriminate|no_write].
Qed.

(** X10. The error artifact is written only by a job that exits with code
    255 and was given a storage directory: never on success, never when the
    job dies of an uncaught exception, never without a directory.  It is
    then written once, as the last thing before the exit, to [error.json]
    in that directory, and holds the reason and nothing else. *)
Theorem error_artifact (env : Env) (config : value) (s : store) :
  (forall dir file json,
      In (EvWriteFileSync dir file json) (trace (job env config s)) ->
      res (job env config s) = inl (Exit 255) /\
      taskStorageDir env = Some dir /\
      file = "error.json" /\
      exists reason, json = VObj [("reason", VStr reason)]) /\
  (forall dir,
      taskStorageDir env = Some dir ->
      res (job env config s) = inl (Exit 255) ->
      exists pre reason,
        trace (job env config s) =
          pre ++ [EvWriteFileSync dir "error.json" (VObj [("reason", VStr reason)])] /\
        Forall (fun e => ~ is_artifact_write e) pre).
Proof.
  split.
  - intros dir file json Hin.
    destruct (job_trace_shape env config s)
      as [(Hres & pre & reason & err & Ht & Hpre)|[_ Hno]].
    + split; [exact Hres|]. rewrite Ht in Hin. apply in_app_or in Hin.
      destruct Hin as [Hin|Hin].
      * exfalso. exact (proj1 (Forall_forall _ _) Hpre _ Hin I).
      * unfold fail_events in Hin. destruct (taskStorageDir env) as [d|];
          cbn in Hin; destruct Hin as [Hin|[Hin|Hin]]; try discriminate;
          try contradiction.
        destruct Hin as [Hin|[]]. injection Hin as -> <- <-. eauto.
    + exfalso. exact (proj1 (Forall_forall _ _) Hno _ Hin I).
  - intros dir Hdir Hres.
    destruct (job_trace_shape env config s)
      as [(_ & pre & reason & err & Ht & Hpre)|[Hno _]]; [|contradiction].
    exists (pre ++ [EvMongoClose;
                    EvLogWarn err "Failing due to error, with reason[%s]." [VStr reason]]),
      reason.
    split.
    + rewrite Ht. unfold fail_events. rewrite Hdir. now rewrite <- app_assoc.
    + apply Forall_app. split; [exact Hpre|]. repeat constructor; cbn; tauto.
Qed.

Lemma error_artifact_witness :
  taskStorageDir healthy_env = Some "/tmp/task" /\
  res (job healthy_env empty_job sample_store) = inl (Exit 255) /\
  exists pre reason,
    trace (job healthy_env empty_job sample_store) =
      pre ++ [EvWriteFileSync "/tmp/task" "error.json"
                              (VObj [("reason", VStr reason)])] /\
    Forall (fun e => ~ is_artifact_write e) pre.
Proof.
  split; [reflexivity|]. split; [reflexivity|].
  exact (proj2 (error_artifact healthy_env empty_job sample_store)
               "/tmp/task" eq_refl eq_refl).
Defined.
